(** * mcp-memory-service: the memory management logic of [server.py]

    A shallow embedding of [MemoryServer] (src/mcp_memory_service/server.py):
    the fingerprint function [_generate_hash], the six tool handlers and the
    storage collection they drive, followed by the properties of the
    specification that concern them.

    Conventions.
    - A Python [str] is a [string] holding its UTF-8 bytes, so that
      [str.encode()] is the identity.  Comparison of [str] values (by code
      point) is then the bytewise [String.compare], and [",".join],
      [split(",")] and substring search act on the bytes as they act on the
      code points.
    - A Python [dict] with [str] keys and [str] values is an association
      list in insertion order with pairwise distinct keys.
    - [time.time()] is an input: every reading the code takes is passed to
      the handler that takes it. *)

From Stdlib Require Import ZArith List String Ascii Bool Lia Arith.
From Stdlib Require Import Permutation Sorted DecimalString DecimalZ DecimalNat.
From Stdlib Require Import Floats.
Import ListNotations.

Local Open Scope string_scope.
Local Open Scope list_scope.

(* ================================================================== *)
(** * SHA-256 ([hashlib.sha256], FIPS 180-4)                          *)
(* ================================================================== *)

Module SHA256.
Local Open Scope Z_scope.

(** Words are 32-bit unsigned integers in [Z]; additions wrap. *)
Definition wrap (x : Z) : Z := x mod 4294967296.
Definition add32 (x y : Z) : Z := wrap (x + y).
Definition rotr (n x : Z) : Z :=
  Z.lor (Z.shiftr x n) (wrap (Z.shiftl x (32 - n))).
Definition not32 (x : Z) : Z := Z.lxor x 4294967295.

Definition Ch (x y z : Z) : Z := Z.lxor (Z.land x y) (Z.land (not32 x) z).
Definition Maj (x y z : Z) : Z :=
  Z.lxor (Z.lxor (Z.land x y) (Z.land x z)) (Z.land y z).
Definition bsig0 (x : Z) : Z := Z.lxor (Z.lxor (rotr 2 x) (rotr 13 x)) (rotr 22 x).
Definition bsig1 (x : Z) : Z := Z.lxor (Z.lxor (rotr 6 x) (rotr 11 x)) (rotr 25 x).
Definition ssig0 (x : Z) : Z := Z.lxor (Z.lxor (rotr 7 x) (rotr 18 x)) (Z.shiftr x 3).
Definition ssig1 (x : Z) : Z := Z.lxor (Z.lxor (rotr 17 x) (rotr 19 x)) (Z.shiftr x 10).

(** The constants are the first 32 bits of the fractional parts of the
    cube roots (for [K]) and of the square roots (for [H0]) of the first
    primes; they are computed here rather than tabulated. *)
Definition is_prime (n : Z) : bool :=
  forallb (fun d => negb (n mod d =? 0)) (map Z.of_nat (seq 2 (Z.to_nat n - 2))).

Definition primes_upto (n : nat) : list Z :=
  filter is_prime (map Z.of_nat (seq 2 (n - 1))).

(** [floor (n ^ (1/k))], found bit by bit from bit [bit - 1] down. *)
Fixpoint floor_root (k n : Z) (bit : nat) (r : Z) : Z :=
  match bit with
  | O => r
  | S b =>
      let r' := r + 2 ^ Z.of_nat b in
      floor_root k n b (if r' ^ k <=? n then r' else r)
  end.

Definition fractional_root (k p : Z) : Z :=
  wrap (floor_root k (p * 2 ^ (32 * k)) 40 0).

Definition K : list Z :=
  Eval vm_compute in map (fractional_root 3) (primes_upto 311).

(** The eight working variables / the running hash value. *)
Record hstate : Type := HState
  { ha : Z; hb : Z; hc : Z; hd : Z; he : Z; hf : Z; hg : Z; hh : Z }.

Definition H0 : hstate :=
  Eval vm_compute in
  match map (fractional_root 2) (primes_upto 19) with
  | [a; b; c; d; e; f; g; h] => HState a b c d e f g h
  | _ => HState 0 0 0 0 0 0 0 0
  end.

(** Big-endian grouping of the bytes of a block into 32-bit words. *)
Fixpoint words_of_bytes (bs : list Z) : list Z :=
  match bs with
  | b3 :: b2 :: b1 :: b0 :: rest =>
      (b3 * 16777216 + b2 * 65536 + b1 * 256 + b0) :: words_of_bytes rest
  | _ => []
  end.

(** Message schedule; [rev_w] holds W[t-1], W[t-2], ... newest first. *)
Fixpoint extend (n : nat) (rev_w : list Z) : list Z :=
  match n with
  | O => rev_w
  | S n' =>
      let w := add32 (add32 (ssig1 (nth 1 rev_w 0)) (nth 6 rev_w 0))
                     (add32 (ssig0 (nth 14 rev_w 0)) (nth 15 rev_w 0)) in
      extend n' (w :: rev_w)
  end.

Definition schedule (block : list Z) : list Z :=
  rev (extend 48 (rev (words_of_bytes block))).

Definition round (s : hstate) (kw : Z * Z) : hstate :=
  let t1 := add32 (add32 (add32 (hh s) (bsig1 (he s)))
                         (add32 (Ch (he s) (hf s) (hg s)) (fst kw))) (snd kw) in
  let t2 := add32 (bsig0 (ha s)) (Maj (ha s) (hb s) (hc s)) in
  HState (add32 t1 t2) (ha s) (hb s) (hc s) (add32 (hd s) t1) (he s) (hf s) (hg s).

Definition compress (s : hstate) (block : list Z) : hstate :=
  let r := fold_left round (combine K (schedule block)) s in
  HState (add32 (ha s) (ha r)) (add32 (hb s) (hb r)) (add32 (hc s) (hc r))
         (add32 (hd s) (hd r)) (add32 (he s) (he r)) (add32 (hf s) (hf r))
         (add32 (hg s) (hg r)) (add32 (hh s) (hh r)).

(** Padding: 0x80, zeros up to 56 mod 64, then the bit length on 8 bytes. *)
Definition be64 (n : Z) : list Z :=
  map (fun i => Z.shiftr n i mod 256) [56; 48; 40; 32; 24; 16; 8; 0].

Definition pad (msg : list Z) : list Z :=
  let len := Z.of_nat (List.length msg) in
  msg ++ 128 :: repeat 0 (Z.to_nat ((55 - len) mod 64)) ++ be64 (8 * len).

Fixpoint blocks (n : nat) (bs : list Z) (s : hstate) : hstate :=
  match n with
  | O => s
  | S n' => blocks n' (skipn 64 bs) (compress s (firstn 64 bs))
  end.

Definition digest (msg : list Z) : hstate :=
  let p := pad msg in blocks (List.length p / 64) p H0.

(** [hexdigest]: each word as eight lowercase hexadecimal digits. *)
Definition hexdigit (d : Z) : ascii :=
  nth (Z.to_nat d) (list_ascii_of_string "0123456789abcdef") "0"%char.

Definition hex8 (w : Z) : string :=
  string_of_list_ascii
    (map (fun i => hexdigit (Z.shiftr w i mod 16)) [28; 24; 20; 16; 12; 8; 4; 0]).

Definition hexdigest (s : hstate) : string :=
  hex8 (ha s) ++ hex8 (hb s) ++ hex8 (hc s) ++ hex8 (hd s) ++
  hex8 (he s) ++ hex8 (hf s) ++ hex8 (hg s) ++ hex8 (hh s).

Definition bytes_of_string (s : string) : list Z :=
  map (fun c => Z.of_N (N_of_ascii c)) (list_ascii_of_string s).

(** [hashlib.sha256(s.encode()).hexdigest()] *)
Definition sha256 (s : string) : string := hexdigest (digest (bytes_of_string s)).

End SHA256.

Import SHA256.

(* ================================================================== *)
(** * Python strings and dictionaries                                  *)
(* ================================================================== *)

(** [sep.join(parts)] is [String.concat sep parts]. *)

(** [s.split(",")]: one more piece than there are separators. *)
Fixpoint split (sep : ascii) (s : string) : list string :=
  match s with
  | EmptyString => [EmptyString]
  | String c s' =>
      if Ascii.eqb c sep then EmptyString :: split sep s'
      else match split sep s' with
           | piece :: pieces => String c piece :: pieces
           | [] => [String c EmptyString]
           end
  end.

(** [t in s] on strings: [t] occurs in [s] at some position. *)
Fixpoint contains (t s : string) : bool :=
  String.prefix t s ||
  match s with
  | EmptyString => false
  | String _ s' => contains t s'
  end.

(** [str(n)] for an [int]. *)
Definition str_int (n : Z) : string := NilZero.string_of_int (Z.to_int n).
Definition str_len (n : nat) : string := str_int (Z.of_nat n).

(** [x in xs] for a list or a set of strings. *)
Definition mem (x : string) (xs : list string) : bool :=
  existsb (String.eqb x) xs.

(** A [dict] from [str] to [str], in insertion order. *)
Definition dict : Type := list (string * string).

Fixpoint dict_get (k : string) (d : dict) : option string :=
  match d with
  | [] => None
  | (k', v) :: d' => if String.eqb k k' then Some v else dict_get k d'
  end.

Definition dict_has (k : string) (d : dict) : bool :=
  match dict_get k d with Some _ => true | None => false end.

(** [d[k] = v]: replaces the value in place, or appends a new entry. *)
Fixpoint dict_set (k v : string) (d : dict) : dict :=
  match d with
  | [] => [(k, v)]
  | (k', v') :: d' =>
      if String.eqb k k' then (k, v) :: d' else (k', v') :: dict_set k v d'
  end.

Definition keys (d : dict) : list string := map fst d.

(** Order of the [(key, value)] tuples, as [sorted(metadata.items())]
    compares them: by key, then by value. *)
Definition item_leb (x y : string * string) : bool :=
  match String.compare (fst x) (fst y) with
  | Lt => true
  | Eq => String.leb (snd x) (snd y)
  | Gt => false
  end.

Fixpoint insert_item (x : string * string) (l : dict) : dict :=
  match l with
  | [] => [x]
  | y :: l' => if item_leb x y then x :: l else y :: insert_item x l'
  end.

(** [sorted(d.items())] *)
Definition sorted (d : dict) : dict := fold_right insert_item [] d.

(* ================================================================== *)
(** * The Hasher: [MemoryServer._generate_hash]                        *)
(* ================================================================== *)

(** [f"{k}:{v}"] *)
Definition render_item (kv : string * string) : string :=
  fst kv ++ ":" ++ snd kv.

(** The string that is hashed.  An empty (or absent) [metadata] is falsy
    and adds nothing. *)
Definition hash_content (content : string) (metadata : dict) : string :=
  match metadata with
  | [] => content
  | _ :: _ => content ++ String.concat "," (map render_item (sorted metadata))
  end.

Definition _generate_hash (content : string) (metadata : dict) : string :=
  sha256 (hash_content content metadata).

(* ================================================================== *)
(** * The storage collection and the embedding model                   *)
(* ================================================================== *)

(** One entry of the collection: what [collection.add] is given. *)
Record memory : Type := Memory
  { mem_id : string;
    mem_document : string;
    mem_metadata : dict;
    mem_embedding : list float }.

(** The calls a handler makes on its two collaborators, in order. *)
Inductive call : Type :=
| CallEncode (text : string)
| CallGetAll
| CallGetByHash (content_hash : string)
| CallGetByTag (tag : string)
| CallQuery (n_results : Z)
| CallAdd (id : string)
| CallDeleteIds (ids : list string)
| CallDeleteByHash (content_hash : string).

(** The state a handler runs in: [self.collection] in iteration order, and
    the calls made so far. *)
Record world : Type := World
  { collection : list memory;
    calls : list call }.

(** Handlers are state transformers over [world]. *)
Definition M (A : Type) : Type := world -> A * world.
Definition ret {A} (a : A) : M A := fun w => (a, w).
Definition bind {A B} (m : M A) (k : A -> M B) : M B :=
  fun w => let (a, w') := m w in k a w'.

Declare Scope handler_scope.
Delimit Scope handler_scope with handler.
Notation "x <- m ;; k" := (bind m (fun x => k))
  (at level 61, m at next level, right associativity) : handler_scope.
Notation "m ;;; k" := (bind m (fun _ => k))
  (at level 61, right associativity) : handler_scope.
Local Open Scope handler_scope.

Definition log (c : call) : M unit :=
  fun w => (tt, World (collection w) (calls w ++ [c])).
Definition read_collection : M (list memory) := fun w => (collection w, w).
Definition write_collection (c : list memory) : M unit :=
  fun w => (tt, World c (calls w)).

Definition has_hash (h : string) (m : memory) : bool :=
  match dict_get "content_hash" (mem_metadata m) with
  | Some h' => String.eqb h' h
  | None => false
  end.

(** The substring test on the raw [tags_str] that the specification reads
    into the [$contains] filter of [handle_delete_by_tag]. *)
Definition tags_contain (tag : string) (m : memory) : bool :=
  match dict_get "tags_str" (mem_metadata m) with
  | Some s => contains tag s
  | None => false
  end.

Definition has_id (id : string) (m : memory) : bool := String.eqb (mem_id m) id.

(** Modelled from the spec: the vector storage engine (the [chromadb]
    collection) is an external collaborator, absent from the source.  The
    specification gives its interface: a persistent collection with
    [add(id, vector, document, metadata)], [get(filter)] returning the
    matching records and [delete(ids | filter)].  Here it is the list of
    its records in the order they were added, and an id identifies one
    record: an [add] under an id that is already present is ignored, as
    [chromadb] does. *)
Definition collection_get : M (list memory) :=
  log CallGetAll ;;; read_collection.

(** Modelled from the spec: [get(where={"content_hash": h}, limit=1)], the
    first live record whose [content_hash] equals [h], if any. *)
Definition collection_get_by_hash (h : string) : M (list memory) :=
  log (CallGetByHash h) ;;;
  c <- read_collection ;;
  ret (firstn 1 (filter (has_hash h) c)).

(** Modelled from the spec: [add(ids=[id], ...)]. *)
Definition collection_add (m : memory) : M unit :=
  log (CallAdd (mem_id m)) ;;;
  c <- read_collection ;;
  if existsb (has_id (mem_id m)) c then ret tt
  else write_collection (c ++ [m]).

(** Modelled from the spec: [delete(ids=ids)]. *)
Definition collection_delete_ids (ids : list string) : M unit :=
  log (CallDeleteIds ids) ;;;
  c <- read_collection ;;
  write_collection (filter (fun m => negb (mem (mem_id m) ids)) c).

(** Modelled from the spec: [delete(where={"content_hash": h})]. *)
Definition collection_delete_by_hash (h : string) : M unit :=
  log (CallDeleteByHash h) ;;;
  c <- read_collection ;;
  write_collection (filter (fun m => negb (has_hash h m)) c).

(** A newline, as in ["\n"]. *)
Definition nl : string := String (ascii_of_nat 10) EmptyString.

(** The caller-supplied [metadata] object of [store_memory]: the two keys
    of the input schema, and whatever other keys the caller sent. *)
Record raw_metadata : Type := RawMetadata
  { tags : option (list string);
    type_ : option string;
    other : dict }.

(** Truth value of the [metadata] dict: it has at least one key. *)
Definition truthy (md : raw_metadata) : bool :=
  match tags md, type_ md, other md with
  | None, None, [] => false
  | _, _, _ => true
  end.

(** The two readings of [time.time()] that [handle_store_memory] takes:
    [str(time.time())] for the timestamp and [int(time.time() * 1000)] for
    the id. *)
Record clock : Type := Clock
  { stamp : string;
    millis : Z }.

Section Handlers.
Local Open Scope string_scope.

(** [self.model.encode(text).tolist()] *)
Variable encode : string -> list float.

(** Modelled from the spec: [query(vector, k)], the [k] nearest records
    with their cosine distances, nearest first; or the message of the
    exception the engine raises. *)
Variable nearest : list memory -> list float -> Z -> string + list (memory * float).

(** [f"{x:.2f}"] *)
Variable format_2f : float -> string.

(** The engine's reply to [get(where={"tags_str": {"$contains": tag}})]:
    the records it selects, or the message of the exception it raises.
    The engine checks the operators of a [where] filter before it reads
    the collection, and [chromadb] has no [$contains] among the operators
    of a metadata filter (it is an operator of [where_document]). *)
Variable where_contains : list memory -> string -> string + list memory.

Definition collection_get_by_tag (tag : string) : M (string + list memory) :=
  log (CallGetByTag tag) ;;;
  c <- read_collection ;;
  ret (where_contains c tag).

Definition model_encode (text : string) : M (list float) :=
  log (CallEncode text) ;;; ret (encode text).

Definition collection_query (v : list float) (n : Z)
  : M (string + list (memory * float)) :=
  log (CallQuery n) ;;;
  c <- read_collection ;;
  ret (nearest c v n).

(** ** The Metadata Normalizer: lines 189-197 of [handle_store_memory] *)
Definition process_metadata (now : string) (metadata : option raw_metadata) : dict :=
  let processed_metadata : dict := [] in
  let processed_metadata :=
    match metadata with
    | Some md =>
        if truthy md then
          let processed_metadata :=
            match tags md with
            | Some ts => dict_set "tags_str" (String.concat "," ts) processed_metadata
            | None => processed_metadata
            end in
          match type_ md with
          | Some t => dict_set "type" t processed_metadata
          | None => processed_metadata
          end
        else processed_metadata
    | None => processed_metadata
    end in
  dict_set "timestamp" now processed_metadata.

(** ** [handle_store_memory] *)
Definition handle_store_memory (clk : clock)
    (content : option string) (metadata : option raw_metadata) : M string :=
  match content with
  | None | Some EmptyString => ret "Error: Content is required"
  | Some (String _ _ as content) =>
      let processed_metadata := process_metadata (stamp clk) metadata in
      let content_hash := _generate_hash content processed_metadata in
      let processed_metadata :=
        dict_set "content_hash" content_hash processed_metadata in
      existing <- collection_get_by_hash content_hash ;;
      match existing with
      | _ :: _ => ret "Duplicate content detected, skipping storage"
      | [] =>
          embedding <- model_encode content ;;
          let memory_id := str_int (millis clk) in
          collection_add (Memory memory_id content processed_metadata embedding) ;;;
          ret ("Successfully stored memory with ID: " ++ memory_id)
      end
  end.

(** ** [handle_retrieve_memory] *)
Definition format_result (i : nat) (r : memory * float) : string :=
  "Memory " ++ str_len (i + 1) ++ ":" ++ nl ++
  "Content: " ++ mem_document (fst r) ++ nl ++
  "Relevance Score: " ++ format_2f (1 - snd r)%float ++ nl ++
  "---".

Fixpoint format_results (i : nat) (rs : list (memory * float)) : list string :=
  match rs with
  | [] => []
  | r :: rs' => format_result i r :: format_results (S i) rs'
  end.

Definition handle_retrieve_memory
    (query : option string) (n_results : option Z) : M string :=
  let n_results := match n_results with Some n => n | None => 5%Z end in
  match query with
  | None | Some EmptyString => ret "Error: Query is required"
  | Some (String _ _ as query) =>
      v <- model_encode query ;;
      results <- collection_query v n_results ;;
      match results with
      | inl e => ret ("Error retrieving memories: " ++ e)
      | inr [] => ret "No matching memories found"
      | inr rs =>
          ret ("Found the following memories:" ++ nl ++ nl ++
               String.concat nl (format_results 0 rs))
      end
  end.

(** ** [handle_search_by_tag] *)

(** [any(tag in memory_tags for tag in tags)] with
    [memory_tags = set(tags_str.split(","))] *)
Definition any_tag_in (tags : list string) (tags_str : string) : bool :=
  let memory_tags := split "," tags_str in
  existsb (fun tag => mem tag memory_tags) tags.

Definition format_match (i : nat) (document tags_str : string) : string :=
  "Memory " ++ str_len (i + 1) ++ ":" ++ nl ++
  "Content: " ++ document ++ nl ++
  "Tags: " ++ tags_str ++ nl ++
  "---".

(** The body of the loop over [results["metadatas"]]. *)
Definition search_step (tags : list string)
    (matching_memories : list string) (m : memory) : list string :=
  match dict_get "tags_str" (mem_metadata m) with
  | Some tags_str =>
      if any_tag_in tags tags_str then
        (matching_memories ++
           [format_match (List.length matching_memories) (mem_document m) tags_str])%list
      else matching_memories
  | None => matching_memories
  end.

Definition handle_search_by_tag (tags : option (list string)) : M string :=
  match tags with
  | Some ((_ :: _) as tags) =>
      results <- collection_get ;;
      match results with
      | [] => ret "No memories found"
      | _ :: _ =>
          match fold_left (search_step tags) results [] with
          | [] => ret ("No memories found with tags: " ++ String.concat ", " tags)
          | matching_memories =>
              ret ("Found the following memories:" ++ nl ++ nl ++
                   String.concat nl matching_memories)
          end
      end
  | _ => ret "Error: Tags are required"
  end.

(** ** [handle_delete_memory] *)
Definition handle_delete_memory (content_hash : option string) : M string :=
  match content_hash with
  | Some (String _ _ as content_hash) =>
      collection_delete_by_hash content_hash ;;;
      ret ("Memory with hash " ++ content_hash ++ " deleted successfully")
  | _ => ret "Error: Content hash is required"
  end.

(** ** [handle_delete_by_tag] *)
Definition handle_delete_by_tag (tag : option string) : M string :=
  match tag with
  | Some (String _ _ as tag) =>
      results <- collection_get_by_tag tag ;;
      match results with
      | inr ((_ :: _) as results) =>
          collection_delete_ids (map mem_id results) ;;;
          ret ("Deleted " ++ str_len (List.length results) ++
               " memories with tag '" ++ tag ++ "'")
      | inr [] => ret ("No memories found with tag '" ++ tag ++ "'")
      | inl e => ret ("Error deleting memories by tag: " ++ e)
      end
  | _ => ret "Error: Tag is required"
  end.

(** ** [handle_cleanup_duplicates] *)

(** The body of the loop over the zipped ids, documents and metadatas:
    the state is [(seen_hashes, duplicates)]. *)
Definition cleanup_step (st : dict * list string) (m : memory)
  : dict * list string :=
  let (seen_hashes, duplicates) := st in
  let content_hash := _generate_hash (mem_document m) (mem_metadata m) in
  if dict_has content_hash seen_hashes then
    (seen_hashes, (duplicates ++ [mem_id m])%list)
  else (dict_set content_hash (mem_id m) seen_hashes, duplicates).

Definition handle_cleanup_duplicates : M string :=
  all_memories <- collection_get ;;
  let duplicates := snd (fold_left cleanup_step all_memories ([], [])) in
  match duplicates with
  | _ :: _ =>
      collection_delete_ids duplicates ;;;
      ret ("Removed " ++ str_len (List.length duplicates) ++ " duplicate memories")
  | [] => ret "No duplicates found"
  end.

(** ** [handle_call_tool]: the tools and their arguments *)
Inductive tool_call : Type :=
| store_memory (clk : clock) (content : option string) (metadata : option raw_metadata)
| retrieve_memory (query : option string) (n_results : option Z)
| search_by_tag (tags : option (list string))
| delete_memory (content_hash : option string)
| delete_by_tag (tag : option string)
| cleanup_duplicates.

Definition handle_call_tool (c : tool_call) : M string :=
  match c with
  | store_memory clk content metadata => handle_store_memory clk content metadata
  | retrieve_memory query n_results => handle_retrieve_memory query n_results
  | search_by_tag tags => handle_search_by_tag tags
  | delete_memory content_hash => handle_delete_memory content_hash
  | delete_by_tag tag => handle_delete_by_tag tag
  | cleanup_duplicates => handle_cleanup_duplicates
  end.

(** A session: the tool calls of a client, served one after the other. *)
Fixpoint serve (cs : list tool_call) : M (list string) :=
  match cs with
  | [] => ret []
  | c :: cs' =>
      r <- handle_call_tool c ;;
      rs <- serve cs' ;;
      ret (r :: rs)
  end.

End Handlers.

(** The empty collection a fresh server starts from. *)
Definition initial : world := World [] [].

(** A stand-in embedding model, engine ranking and number format, for
    running the handlers on concrete inputs; no property below depends on
    what they return. *)
Definition encode0 (text : string) : list float := [].
Definition nearest0 (c : list memory) (v : list float) (n : Z)
  : string + list (memory * float) :=
  inr (map (fun m => (m, 0%float)) (firstn (Z.to_nat n) c)).
Definition format0 (x : float) : string := "?".

(** An engine that rejects the [$contains] filter with the message [e],
    whatever the collection and the tag. *)
Definition rejects (e : string) (c : list memory) (tag : string)
  : string + list memory := inl e.

(** The engine of the deployment: the message is the one [chromadb]'s
    validation of [where] filters raises [ValueError] with. *)
Definition where_contains0 : list memory -> string -> string + list memory :=
  rejects
    "Expected where operator to be one of $gt, $gte, $lt, $lte, $ne, $eq, $in, $nin, got $contains".

(* ================================================================== *)
(** * The tool registry and the dispatch by name                       *)
(* ================================================================== *)

(** A [types.Tool]: its name, its description, the properties of its input
    schema with their JSON types, and the required ones. *)
Record tool : Type := Tool
  { tool_name : string;
    tool_description : string;
    tool_properties : list (string * string);
    tool_required : list string }.

(** [handle_list_tools] *)
Definition handle_list_tools : list tool :=
  [ Tool "store_memory" "Store new information with optional tags"
      [("content", "string"); ("metadata", "object")] ["content"];
    Tool "retrieve_memory" "Find relevant memories based on query"
      [("query", "string"); ("n_results", "number")] ["query"];
    Tool "search_by_tag" "Search memories by tags"
      [("tags", "array")] ["tags"];
    Tool "delete_memory" "Delete a specific memory by its hash"
      [("content_hash", "string")] ["content_hash"];
    Tool "delete_by_tag" "Delete all memories with a specific tag"
      [("tag", "string")] ["tag"];
    Tool "cleanup_duplicates" "Find and remove duplicate entries" [] [] ].

(** The [arguments] dict of a tool call: the keys the handlers read with
    [arguments.get], each present or not. *)
Record arguments : Type := Args
  { arg_content : option string;
    arg_metadata : option raw_metadata;
    arg_query : option string;
    arg_n_results : option Z;
    arg_tags : option (list string);
    arg_content_hash : option string;
    arg_tag : option string }.

(** [{}] *)
Definition no_arguments : arguments :=
  Args None None None None None None None.

(** [key in arguments] *)
Definition present (key : string) (a : arguments) : bool :=
  let given {A} (o : option A) := match o with Some _ => true | None => false end in
  if String.eqb key "content" then given (arg_content a)
  else if String.eqb key "metadata" then given (arg_metadata a)
  else if String.eqb key "query" then given (arg_query a)
  else if String.eqb key "n_results" then given (arg_n_results a)
  else if String.eqb key "tags" then given (arg_tags a)
  else if String.eqb key "content_hash" then given (arg_content_hash a)
  else if String.eqb key "tag" then given (arg_tag a)
  else false.

(** [bool(arguments.get(key))], the test the handlers make with
    [if not value]: false for a key that is absent, for the empty string,
    the empty list, the empty dict and zero. *)
Definition usable (key : string) (a : arguments) : bool :=
  let full (o : option string) :=
    match o with Some (String _ _) => true | _ => false end in
  if String.eqb key "content" then full (arg_content a)
  else if String.eqb key "metadata" then
    match arg_metadata a with Some md => truthy md | None => false end
  else if String.eqb key "query" then full (arg_query a)
  else if String.eqb key "n_results" then
    match arg_n_results a with Some n => negb (Z.eqb n 0) | None => false end
  else if String.eqb key "tags" then
    match arg_tags a with Some (_ :: _) => true | _ => false end
  else if String.eqb key "content_hash" then full (arg_content_hash a)
  else if String.eqb key "tag" then full (arg_tag a)
  else false.

Section Dispatch.
Local Open Scope string_scope.
Variable encode : string -> list float.
Variable nearest : list memory -> list float -> Z -> string + list (memory * float).
Variable format_2f : float -> string.
Variable where_contains : list memory -> string -> string + list memory.

(** [handle_call_tool(name, arguments)], by the name of the tool.  An
    unknown name raises [ValueError], which the handler's own [except]
    turns into the text returned. *)
Definition call_tool (clk : clock) (name : string) (args : option arguments)
  : M string :=
  let arguments := match args with Some a => a | None => no_arguments end in
  if String.eqb name "store_memory" then
    handle_store_memory encode clk (arg_content arguments) (arg_metadata arguments)
  else if String.eqb name "retrieve_memory" then
    handle_retrieve_memory encode nearest format_2f
      (arg_query arguments) (arg_n_results arguments)
  else if String.eqb name "search_by_tag" then
    handle_search_by_tag (arg_tags arguments)
  else if String.eqb name "delete_memory" then
    handle_delete_memory (arg_content_hash arguments)
  else if String.eqb name "delete_by_tag" then
    handle_delete_by_tag where_contains (arg_tag arguments)
  else if String.eqb name "cleanup_duplicates" then
    handle_cleanup_duplicates
  else ret ("Error: " ++ "Unknown tool: " ++ name).

End Dispatch.

(* ================================================================== *)
(** * Notions the properties are stated with                           *)
(* ================================================================== *)

Local Open Scope string_scope.

(** The order [sorted] sorts by, and the strict order of the keys. *)
Definition item_le (x y : string * string) : Prop := item_leb x y = true.

Definition key_lt (x y : string * string) : Prop :=
  String.compare (fst x) (fst y) = Lt.

(** The tags and the type a store request carries, if any. *)
Definition supplied_tags (metadata : option raw_metadata) : option (list string) :=
  match metadata with Some md => tags md | None => None end.
Definition supplied_type (metadata : option raw_metadata) : option string :=
  match metadata with Some md => type_ md | None => None end.

(** The metadata [handle_store_memory] hands to [collection.add]. *)
Definition stored_metadata (now content : string)
    (metadata : option raw_metadata) : dict :=
  dict_set "content_hash"
    (_generate_hash content (process_metadata now metadata))
    (process_metadata now metadata).

(** A record is written by a run when it is in the collection afterwards
    and was not before. *)
Definition written (m : memory) (before after : world) : Prop :=
  In m (collection after) /\ ~ In m (collection before).

(** The ranked list of the specification: [(content, score)] with
    [score = 1 - distance], in the order the engine returned. *)
Definition scores (rs : list (memory * float)) : list (string * float) :=
  map (fun r => (mem_document (fst r), (1 - snd r)%float)) rs.

Section RetrieveText.
Variable format_2f : float -> string.

Definition render_score (i : nat) (e : string * float) : string :=
  "Memory " ++ str_len (i + 1) ++ ":" ++ nl ++
  "Content: " ++ fst e ++ nl ++
  "Relevance Score: " ++ format_2f (snd e) ++ nl ++
  "---".

Fixpoint render_scores (i : nat) (es : list (string * float)) : list string :=
  match es with
  | [] => []
  | e :: es' => render_score i e :: render_scores (S i) es'
  end.

End RetrieveText.

(** The matching rule of the specification: the record has a [tags_str]
    and one of the requested tags is among its comma-separated pieces. *)
Definition tags_intersect (tags : list string) (m : memory) : Prop :=
  exists tags_str tag,
    dict_get "tags_str" (mem_metadata m) = Some tags_str
    /\ In tag tags /\ In tag (split "," tags_str).

(** The test the loop of [handle_search_by_tag] applies to a record. *)
Definition tag_match (tags : list string) (m : memory) : bool :=
  match dict_get "tags_str" (mem_metadata m) with
  | Some tags_str => any_tag_in tags tags_str
  | None => false
  end.

(** The text blocks of the matching records, numbered from [i + 1]. *)
Fixpoint format_matches (i : nat) (ms : list memory) : list string :=
  match ms with
  | [] => []
  | m :: ms' =>
      match dict_get "tags_str" (mem_metadata m) with
      | Some tags_str => format_match i (mem_document m) tags_str
      | None => EmptyString
      end :: format_matches (S i) ms'
  end.

(** Three records; the tag "cat" is a substring of the stored tag
    "category". *)
Definition pets : world :=
  World [ Memory "1" "Tom is a cat" [("tags_str", "cat")] [];
          Memory "2" "Taxonomy" [("tags_str", "category,pets")] [];
          Memory "3" "Rex is a dog" [("tags_str", "dog")] [] ]
        [].

(** The fingerprint the sweep recomputes for a stored record. *)
Definition fingerprint (m : memory) : string :=
  _generate_hash (mem_document m) (mem_metadata m).

(** The records kept and the records marked by a pass over [c] that has
    already seen the fingerprints [seen]: the first record of each new
    fingerprint is kept, every other record is marked. *)
Fixpoint survivors (seen : list string) (c : list memory) : list memory :=
  match c with
  | [] => []
  | m :: c' =>
      if mem (fingerprint m) seen then survivors seen c'
      else m :: survivors (seen ++ [fingerprint m]) c'
  end.

Fixpoint colliders (seen : list string) (c : list memory) : list memory :=
  match c with
  | [] => []
  | m :: c' =>
      if mem (fingerprint m) seen then m :: colliders seen c'
      else colliders (seen ++ [fingerprint m]) c'
  end.

(** Four records injected past the duplicate check: three of them have the
    same content and metadata. *)
Definition injected : world :=
  World [ Memory "1" "a" [("type", "note")] [];
          Memory "2" "a" [("type", "note")] [];
          Memory "3" "b" [("type", "note")] [];
          Memory "4" "a" [("type", "note")] [] ]
        [].

Section Assigned.
Variable encode : string -> list float.
Variable nearest : list memory -> list float -> Z -> string + list (memory * float).
Variable format_2f : float -> string.
Variable where_contains : list memory -> string -> string + list memory.

(** The millisecond reading a call turns into an id (line 214): that of a
    store call that passes the validation and the duplicate check, and so
    is answered with its id. *)
Definition assigns (c : tool_call) (w : world) : list Z :=
  match c with
  | store_memory clk content metadata =>
      if String.prefix "Successfully stored memory with ID: "
           (fst (handle_store_memory encode clk content metadata w))
      then [millis clk]
      else []
  | _ => []
  end.

(** The readings turned into ids by a session served from [w], in order. *)
Fixpoint assigned_millis (cs : list tool_call) (w : world) : list Z :=
  match cs with
  | [] => []
  | c :: cs' =>
      assigns c w ++
      assigned_millis cs'
        (snd (handle_call_tool encode nearest format_2f where_contains c w))
  end.

End Assigned.

(** The entries Store hashes, rendered: the timestamp sits between a
    prefix and a suffix that the request alone determines. *)
Definition rendered_prefix (metadata : option raw_metadata) : string :=
  match supplied_tags metadata with
  | Some ts => "tags_str:" ++ String.concat "," ts ++ ",timestamp:"
  | None => "timestamp:"
  end.

Definition rendered_suffix (metadata : option raw_metadata) : string :=
  match supplied_type metadata with
  | Some t => ",type:" ++ t
  | None => ""
  end.

(** A session that stores the same content three times, twice at the same
    reading of the clock, and asks to delete by tag in between. *)
Definition busy_session : list tool_call :=
  [ store_memory (Clock "1.5" 1500) (Some "Tom is a cat")
      (Some (RawMetadata (Some ["cat"]) None []));
    store_memory (Clock "1.5" 1500) (Some "Tom is a cat")
      (Some (RawMetadata (Some ["cat"]) None []));
    store_memory (Clock "2.5" 1500) (Some "Tom is a cat")
      (Some (RawMetadata (Some ["cat"]) None []));
    delete_by_tag (Some "dog");
    store_memory (Clock "3.5" 3500) (Some "Tom is a cat")
      (Some (RawMetadata (Some ["cat"]) None []));
    cleanup_duplicates ].

(** The [content_hash] values carried by the records of a collection. *)
Definition content_hashes (c : list memory) : list string :=
  flat_map (fun m => match dict_get "content_hash" (mem_metadata m) with
                     | Some h => [h]
                     | None => []
                     end) c.

(** The calls that read and never write. *)
Definition reads_only (c : call) : Prop :=
  match c with
  | CallAdd _ | CallDeleteIds _ | CallDeleteByHash _ => False
  | _ => True
  end.

(** A string without a comma. *)
Definition comma_free (t : string) : Prop :=
  ~ In ","%char (list_ascii_of_string t).

(** The answers that report a failure start with ["Error"]. *)
Definition is_error (text : string) : bool := String.prefix "Error" text.

(** Digests and decimal renderings are never unfolded by simplification. *)
Arguments sha256 : simpl never.
Arguments _generate_hash : simpl never.
Arguments str_int : simpl never.
Arguments process_metadata : simpl never.

(* ================================================================== *)
(** * Test vectors                                                     *)
(* ================================================================== *)

Example sha256_empty :
  SHA256.sha256 "" = "e3b0c44298fc1c149afbf4c8996fb92427ae41e4649b934ca495991b7852b855".
Proof. vm_compute. reflexivity. Qed.

Example sha256_abc :
  SHA256.sha256 "abc" = "ba7816bf8f01cfea414140de5dae2223b00361a396177a9cb410ff61f20015ad".
Proof. vm_compute. reflexivity. Qed.

Example sha256_two_blocks :
  SHA256.sha256 "aaaaaaaaaaaaaaaaaaaaaaaaaaaaaaaaaaaaaaaaaaaaaaaaaaaaaaaa" =
  "b35439a4ac6f0948b6d6f9e3c6af0f5f590ce20f1bde7090ef7970686ec6738a".
Proof. vm_compute. reflexivity. Qed.

Example generate_hash_ex :
  _generate_hash "x" [("timestamp", "1.0")] =
  "8b938a9ef414bbd4ba1a00c8fab75e209a2ab6fd3679f0fc99782c0a1283db7e".
Proof. vm_compute. reflexivity. Qed.

Example split_ex : split "," "a,b,,c" = ["a"; "b"; ""; "c"] /\ split "," "" = [""].
Proof. split; reflexivity. Qed.

Example str_int_ex : str_int 1733000000123 = "1733000000123" /\ str_int 0 = "0" /\ str_int (-5) = "-5".
Proof. repeat split; reflexivity. Qed.

(* ================================================================== *)
(** * Facts about strings, dictionaries and the order of items         *)
(* ================================================================== *)

Section StringOrder.

Lemma ascii_compare_refl (a : ascii) : Ascii.compare a a = Eq.
Proof. unfold Ascii.compare. apply N.compare_refl. Qed.

Lemma ascii_compare_lt_trans (a b c : ascii) :
  Ascii.compare a b = Lt -> Ascii.compare b c = Lt -> Ascii.compare a c = Lt.
Proof.
  unfold Ascii.compare. rewrite !N.compare_lt_iff. apply N.lt_trans.
Qed.

Lemma string_compare_refl (s : string) : String.compare s s = Eq.
Proof.
  induction s as [|a s IH]; simpl; [reflexivity|].
  now rewrite ascii_compare_refl.
Qed.

Lemma string_compare_eq (s t : string) : String.compare s t = Eq <-> s = t.
Proof.
  split; [apply String.compare_eq_iff|].
  intros ->. apply string_compare_refl.
Qed.

Lemma string_compare_lt_trans (s t u : string) :
  String.compare s t = Lt -> String.compare t u = Lt -> String.compare s u = Lt.
Proof.
  revert t u. induction s as [|a s IH]; intros [|b t] [|c u]; simpl;
    try discriminate; try reflexivity.
  destruct (Ascii.compare a b) eqn:Hab; try discriminate;
    destruct (Ascii.compare b c) eqn:Hbc; try discriminate; intros H1 H2.
  - apply Ascii.compare_eq_iff in Hab, Hbc. subst.
    rewrite ascii_compare_refl. eauto.
  - apply Ascii.compare_eq_iff in Hab. subst. now rewrite Hbc.
  - apply Ascii.compare_eq_iff in Hbc. subst. now rewrite Hab.
  - now rewrite (ascii_compare_lt_trans _ _ _ Hab Hbc).
Qed.

Lemma string_compare_gt_lt (s t : string) :
  String.compare s t = Gt <-> String.compare t s = Lt.
Proof.
  rewrite (String.compare_antisym t s).
  destruct (String.compare s t); simpl; split; congruence.
Qed.

Lemma string_leb_trans (s t u : string) :
  String.leb s t = true -> String.leb t u = true -> String.leb s u = true.
Proof.
  unfold String.leb.
  destruct (String.compare s t) eqn:Hst; try discriminate;
    destruct (String.compare t u) eqn:Htu; try discriminate; intros _ _.
  - apply string_compare_eq in Hst, Htu. subst. now rewrite string_compare_refl.
  - apply string_compare_eq in Hst. subst. now rewrite Htu.
  - apply string_compare_eq in Htu. subst. now rewrite Hst.
  - now rewrite (string_compare_lt_trans _ _ _ Hst Htu).
Qed.

Lemma item_leb_total (x y : string * string) :
  item_leb x y = true \/ item_leb y x = true.
Proof.
  unfold item_leb. rewrite (String.compare_antisym (fst y) (fst x)).
  destruct (String.compare (fst x) (fst y)); simpl; auto.
  apply String.leb_total.
Qed.

Lemma item_leb_antisym (x y : string * string) :
  item_leb x y = true -> item_leb y x = true -> x = y.
Proof.
  destruct x as [k v], y as [k' v']. unfold item_leb; simpl.
  rewrite (String.compare_antisym k' k).
  destruct (String.compare k k') eqn:Hk; simpl; try discriminate.
  apply string_compare_eq in Hk. subst. intros H1 H2.
  f_equal. now apply String.leb_antisym.
Qed.

Lemma item_leb_trans (x y z : string * string) :
  item_leb x y = true -> item_leb y z = true -> item_leb x z = true.
Proof.
  destruct x as [k1 v1], y as [k2 v2], z as [k3 v3]. unfold item_leb; simpl.
  destruct (String.compare k1 k2) eqn:H12; try discriminate;
    destruct (String.compare k2 k3) eqn:H23; try discriminate.
  - apply string_compare_eq in H12, H23. subst.
    rewrite string_compare_refl. apply string_leb_trans.
  - apply string_compare_eq in H12. subst. now rewrite H23.
  - apply string_compare_eq in H23. subst. now rewrite H12.
  - now rewrite (string_compare_lt_trans _ _ _ H12 H23).
Qed.

End StringOrder.

Section Sorting.

Lemma insert_item_perm (x : string * string) (l : dict) :
  Permutation (x :: l) (insert_item x l).
Proof.
  induction l as [|y l IH]; simpl; [reflexivity|].
  destruct (item_leb x y); [reflexivity|].
  rewrite perm_swap. now constructor.
Qed.

Lemma sorted_perm (d : dict) : Permutation d (sorted d).
Proof.
  induction d as [|x d IH]; simpl; [constructor|].
  rewrite <- insert_item_perm. now constructor.
Qed.

Lemma insert_item_sorted (x : string * string) (l : dict) :
  StronglySorted item_le l -> StronglySorted item_le (insert_item x l).
Proof.
  induction 1 as [|y l Hl IH Hy]; simpl.
  - repeat constructor.
  - destruct (item_leb x y) eqn:Hxy.
    + constructor; [now constructor|].
      constructor; [exact Hxy|].
      eapply Forall_impl; [|exact Hy].
      intros z Hz. eapply item_leb_trans; eassumption.
    + constructor; [exact IH|].
      eapply Permutation_Forall; [apply insert_item_perm|].
      constructor; [|exact Hy].
      destruct (item_leb_total x y) as [H|H]; [congruence|exact H].
Qed.

Lemma sorted_sorted (d : dict) : StronglySorted item_le (sorted d).
Proof.
  induction d as [|x d IH]; simpl; [constructor|].
  now apply insert_item_sorted.
Qed.

(** A list of items has one sorted arrangement. *)
Lemma sorted_unique (l1 l2 : dict) :
  StronglySorted item_le l1 -> StronglySorted item_le l2 ->
  Permutation l1 l2 -> l1 = l2.
Proof.
  intros H1. revert l2. induction H1 as [|x l1 Hl1 IH Hx]; intros l2 H2 HP.
  - now apply Permutation_nil in HP.
  - destruct H2 as [|y l2 Hl2 Hy].
    + symmetry in HP. now apply Permutation_nil in HP.
    + assert (x = y) as ->.
      { assert (Hin1 : In x (y :: l2))
          by (eapply Permutation_in; [exact HP | now left]).
        assert (Hin2 : In y (x :: l1))
          by (eapply Permutation_in; [symmetry; exact HP | now left]).
        destruct Hin1 as [->|Hin1]; [reflexivity|].
        destruct Hin2 as [->|Hin2]; [reflexivity|].
        rewrite Forall_forall in Hx, Hy.
        apply item_leb_antisym; [apply Hx | apply Hy]; assumption. }
      f_equal. apply IH; [exact Hl2|].
      eapply Permutation_cons_inv; exact HP.
Qed.

Lemma sorted_permutation_eq (d1 d2 : dict) :
  Permutation d1 d2 -> sorted d1 = sorted d2.
Proof.
  intros HP. apply sorted_unique; try apply sorted_sorted.
  rewrite <- (sorted_perm d1), <- (sorted_perm d2). exact HP.
Qed.

(** With distinct keys, the tuple order sorts by key. *)
Lemma sorted_by_key (d : dict) :
  StronglySorted (fun x y => String.leb (fst x) (fst y) = true) (sorted d).
Proof.
  generalize (sorted_sorted d).
  induction 1 as [|x l Hl IH Hx]; constructor; [exact IH|].
  eapply Forall_impl; [|exact Hx].
  intros y. unfold item_le, item_leb, String.leb.
  destruct (String.compare (fst x) (fst y)); congruence.
Qed.

End Sorting.

(* ================================================================== *)
(** * The Hasher                                                       *)
(* ================================================================== *)

Lemma hash_content_eq (content : string) (metadata : dict) :
  hash_content content metadata =
  content ++ String.concat "," (map render_item (sorted metadata)).
Proof.
  destruct metadata as [|kv d]; [|reflexivity].
  simpl. induction content as [|c s IH]; simpl; [reflexivity|].
  now rewrite <- IH.
Qed.

Lemma same_items_perm (d1 d2 : dict) :
  NoDup (keys d1) -> NoDup (keys d2) ->
  (forall k v, In (k, v) d1 <-> In (k, v) d2) -> Permutation d1 d2.
Proof.
  intros H1 H2 H. apply NoDup_Permutation.
  - eapply NoDup_map_inv; exact H1.
  - eapply NoDup_map_inv; exact H2.
  - intros [k v]. apply H.
Qed.

Lemma sorted_strictly_by_key (d : dict) :
  NoDup (keys d) -> StronglySorted key_lt (sorted d).
Proof.
  intros Hnd.
  assert (Hnd' : NoDup (keys (sorted d))).
  { eapply Permutation_NoDup; [|exact Hnd].
    unfold keys. apply Permutation_map, sorted_perm. }
  generalize (sorted_by_key d). revert Hnd'. unfold keys.
  induction (sorted d) as [|x l IH]; intros Hnd' Hs; [constructor|].
  inversion Hnd' as [|? ? Hnotin Hnd'']; subst.
  apply StronglySorted_inv in Hs. destruct Hs as [Hs Hx].
  constructor; [now apply IH|].
  rewrite Forall_forall in *. intros y Hy.
  specialize (Hx y Hy). unfold key_lt, String.leb in *.
  destruct (String.compare (fst x) (fst y)) eqn:Hc; try congruence.
  apply string_compare_eq in Hc. exfalso. apply Hnotin.
  rewrite Hc. now apply in_map.
Qed.

(** C2. Fingerprint determinism: two metadata mappings holding the same
    key/value pairs, in whatever insertion order, give the same digest for
    the same content; the digest is the SHA-256 of the content followed by
    the entries rendered as "key:value", joined by commas, in increasing
    order of their keys. *)
Theorem fingerprint_determinism (content : string) (metadata1 metadata2 : dict) :
  NoDup (keys metadata1) -> NoDup (keys metadata2) ->
  (forall k v, In (k, v) metadata1 <-> In (k, v) metadata2) ->
  _generate_hash content metadata1 = _generate_hash content metadata2
  /\ _generate_hash content metadata1 =
       sha256 (content ++ String.concat "," (map render_item (sorted metadata1)))
  /\ Permutation metadata1 (sorted metadata1)
  /\ StronglySorted key_lt (sorted metadata1).
Proof.
  intros H1 H2 H. repeat split.
  - unfold _generate_hash. rewrite !hash_content_eq.
    now rewrite (sorted_permutation_eq _ _ (same_items_perm _ _ H1 H2 H)).
  - unfold _generate_hash. now rewrite hash_content_eq.
  - apply sorted_perm.
  - now apply sorted_strictly_by_key.
Qed.

Lemma fingerprint_determinism_witness :
  _generate_hash "The sky is blue"
    [("tags_str", "weather,sky"); ("type", "note"); ("timestamp", "1733000000.5")] =
  _generate_hash "The sky is blue"
    [("timestamp", "1733000000.5"); ("type", "note"); ("tags_str", "weather,sky")].
Proof.
  apply (fingerprint_determinism "The sky is blue"
    [("tags_str", "weather,sky"); ("type", "note"); ("timestamp", "1733000000.5")]
    [("timestamp", "1733000000.5"); ("type", "note"); ("tags_str", "weather,sky")]).
  - repeat constructor; simpl; intuition discriminate.
  - repeat constructor; simpl; intuition discriminate.
  - intros k v. simpl. intuition.
Defined.

(* ================================================================== *)
(** * Store and Retrieve: validation                                   *)
(* ================================================================== *)

(** C4. Empty-input rejection without side effects: Store with absent or
    empty content and Retrieve with an absent or empty query answer with
    an error text and leave the world as it was: the collection is
    unchanged and neither the storage engine nor the embedding model has
    been called. *)
Theorem empty_input_rejected
    (encode : string -> list float)
    (nearest : list memory -> list float -> Z -> string + list (memory * float))
    (format_2f : float -> string)
    (clk : clock) (metadata : option raw_metadata) (n_results : option Z)
    (w : world) :
  handle_store_memory encode clk None metadata w
    = ("Error: Content is required", w)
  /\ handle_store_memory encode clk (Some "") metadata w
    = ("Error: Content is required", w)
  /\ handle_retrieve_memory encode nearest format_2f None n_results w
    = ("Error: Query is required", w)
  /\ handle_retrieve_memory encode nearest format_2f (Some "") n_results w
    = ("Error: Query is required", w).
Proof. repeat split. Qed.

(* ================================================================== *)
(** * Store: the persisted metadata                                    *)
(* ================================================================== *)

Lemma process_metadata_shape (now : string) (metadata : option raw_metadata) :
  process_metadata now metadata =
    (match supplied_tags metadata with
     | Some ts => [("tags_str", String.concat "," ts)]
     | None => []
     end ++
     match supplied_type metadata with
     | Some t => [("type", t)]
     | None => []
     end ++ [("timestamp", now)])%list.
Proof.
  unfold process_metadata, supplied_tags, supplied_type, truthy.
  destruct metadata as [[[ts|] [t|] o]|]; simpl; try reflexivity.
  destruct o; reflexivity.
Qed.

Lemma stored_metadata_shape (now content : string) (metadata : option raw_metadata) :
  stored_metadata now content metadata =
    (process_metadata now metadata ++
     [("content_hash", _generate_hash content (process_metadata now metadata))])%list.
Proof.
  unfold stored_metadata. rewrite process_metadata_shape.
  destruct (supplied_tags metadata), (supplied_type metadata); reflexivity.
Qed.

(** What a call of [handle_store_memory] with content does. *)
Lemma handle_store_memory_eq (encode : string -> list float)
    (clk : clock) (a : ascii) (s : string)
    (metadata : option raw_metadata) (w : world) :
  let content := String a s in
  let md := stored_metadata (stamp clk) content metadata in
  let h := _generate_hash content (process_metadata (stamp clk) metadata) in
  let id := str_int (millis clk) in
  handle_store_memory encode clk (Some content) metadata w =
  match filter (has_hash h) (collection w) with
  | _ :: _ =>
      ("Duplicate content detected, skipping storage",
       World (collection w) (calls w ++ [CallGetByHash h])%list)
  | [] =>
      ("Successfully stored memory with ID: " ++ id,
       World (if existsb (has_id id) (collection w) then collection w
              else (collection w ++ [Memory id content md (encode content)])%list)
             (calls w ++ [CallGetByHash h; CallEncode content; CallAdd id])%list)
  end.
Proof.
  intros content md h id.
  unfold handle_store_memory, collection_get_by_hash, model_encode,
    collection_add, bind, log, read_collection, write_collection, ret.
  subst content. cbn. fold h. fold id.
  destruct (filter (has_hash h) (collection w)) as [|m ms]; cbn.
  - destruct (existsb (has_id id) (collection w)); cbn;
      rewrite <- !app_assoc; reflexivity.
  - reflexivity.
Qed.

Lemma written_by_store (encode : string -> list float) (clk : clock)
    (content : option string) (metadata : option raw_metadata)
    (w : world) (m : memory) :
  written m w (snd (handle_store_memory encode clk content metadata w)) ->
  exists a s,
    content = Some (String a s) /\
    m = Memory (str_int (millis clk)) (String a s)
          (stored_metadata (stamp clk) (String a s) metadata)
          (encode (String a s)).
Proof.
  intros [Hin Hnot].
  destruct content as [[|a s]|]; try (cbn in Hin; contradiction).
  exists a, s. split; [reflexivity|].
  rewrite handle_store_memory_eq in Hin.
  destruct (filter _ (collection w)); cbn in Hin; [|contradiction].
  destruct (existsb _ (collection w)); [contradiction|].
  apply in_app_or in Hin. destruct Hin as [Hin|[Hin|[]]]; [contradiction|].
  now symmetry.
Qed.

(** What the persisted metadata holds under each of its keys. *)
Lemma stored_metadata_lookup (now content : string) (metadata : option raw_metadata) :
  let md := stored_metadata now content metadata in
  dict_get "tags_str" md = option_map (String.concat ",") (supplied_tags metadata)
  /\ dict_get "type" md = supplied_type metadata
  /\ dict_get "timestamp" md = Some now
  /\ dict_get "content_hash" md
    = Some (_generate_hash content (process_metadata now metadata))
  /\ incl (keys md) ["tags_str"; "type"; "timestamp"; "content_hash"].
Proof.
  cbn zeta. rewrite stored_metadata_shape.
  generalize (_generate_hash content (process_metadata now metadata)).
  intros h. rewrite process_metadata_shape.
  destruct (supplied_tags metadata) as [ts|], (supplied_type metadata) as [t|];
    cbn; (repeat split; try reflexivity);
    intros k Hk; cbn in *; tauto.
Qed.

(** C7, as the code has it. Metadata normalization: the metadata persisted
    by a store request holds [tags_str], the comma-joined tag list, exactly
    when a tag list was supplied (and no [tags_str] otherwise); [type],
    copied through unchanged, exactly when one was supplied; [timestamp],
    the string-encoded reading of the clock; and [content_hash], the
    fingerprint of the content and of the entries before it.  It has no
    other key: whatever else the caller supplied is dropped. *)
Theorem stored_metadata_normalized
    (encode : string -> list float) (clk : clock)
    (content : option string) (metadata : option raw_metadata)
    (w : world) (m : memory) :
  written m w (snd (handle_store_memory encode clk content metadata w)) ->
  dict_get "tags_str" (mem_metadata m)
    = option_map (String.concat ",") (supplied_tags metadata)
  /\ dict_get "type" (mem_metadata m) = supplied_type metadata
  /\ dict_get "timestamp" (mem_metadata m) = Some (stamp clk)
  /\ dict_get "content_hash" (mem_metadata m)
    = Some (_generate_hash (mem_document m)
              (process_metadata (stamp clk) metadata))
  /\ incl (keys (mem_metadata m)) ["tags_str"; "type"; "timestamp"; "content_hash"].
Proof.
  intros H. apply written_by_store in H. destruct H as (a & s & -> & ->).
  cbn [mem_metadata mem_document].
  apply stored_metadata_lookup.
Qed.

Lemma stored_metadata_normalized_witness :
  let request := Some (RawMetadata (Some ["a"; "b"]) (Some "note") [("color", "red")]) in
  let m := Memory "1000" "x" (stored_metadata "1.0" "x" request) [] in
  dict_get "tags_str" (mem_metadata m) = Some "a,b"
  /\ dict_get "type" (mem_metadata m) = Some "note"
  /\ dict_get "timestamp" (mem_metadata m) = Some "1.0"
  /\ dict_get "content_hash" (mem_metadata m)
    = Some (_generate_hash "x" (process_metadata "1.0" request))
  /\ incl (keys (mem_metadata m)) ["tags_str"; "type"; "timestamp"; "content_hash"].
Proof.
  intros request m.
  apply (stored_metadata_normalized encode0 (Clock "1.0" 1000) (Some "x")
           request initial m).
  split.
  - vm_compute. left. reflexivity.
  - cbn. tauto.
Defined.

(** C7, as the specification words it: [tags_str] is the empty string when
    no tags were given.  A request without metadata persists no [tags_str]
    at all. *)
Lemma stored_metadata_tags_counterexample :
  exists m,
    collection (snd (handle_store_memory encode0 (Clock "1.0" 1000)
                       (Some "x") None initial)) = [m]
    /\ mem_metadata m =
         [("timestamp", "1.0");
          ("content_hash",
           "8b938a9ef414bbd4ba1a00c8fab75e209a2ab6fd3679f0fc99782c0a1283db7e")]
    /\ dict_get "tags_str" (mem_metadata m) = None
    /\ dict_get "tags_str" (mem_metadata m) <> Some "".
Proof.
  eexists. split; [vm_compute; reflexivity|].
  split; [reflexivity|]. split; [reflexivity|discriminate].
Qed.

(* ================================================================== *)
(** * Retrieve                                                         *)
(* ================================================================== *)

Lemma format_results_scores (format_2f : float -> string)
    (i : nat) (rs : list (memory * float)) :
  format_results format_2f i rs = render_scores format_2f i (scores rs).
Proof.
  revert i. induction rs as [|r rs IH]; intros i; cbn; [reflexivity|].
  now rewrite IH.
Qed.

(** C9. Retrieve scoring and order: for a non-empty query, whatever list of
    [(record, distance)] pairs the engine returns, Retrieve answers with the
    entries [(content, 1 - distance)], unclamped, numbered in the engine's
    order; and with the no-matches message when the engine returns none. *)
Theorem retrieve_scoring
    (encode : string -> list float)
    (nearest : list memory -> list float -> Z -> string + list (memory * float))
    (format_2f : float -> string)
    (a : ascii) (s : string) (n_results : option Z) (w : world)
    (rs : list (memory * float)) :
  let query := String a s in
  let k := match n_results with Some n => n | None => 5%Z end in
  nearest (collection w) (encode query) k = inr rs ->
  handle_retrieve_memory encode nearest format_2f (Some query) n_results w =
    (match rs with
     | [] => "No matching memories found"
     | _ :: _ => "Found the following memories:" ++ nl ++ nl ++
                 String.concat nl (render_scores format_2f 0 (scores rs))
     end,
     World (collection w) (calls w ++ [CallEncode query; CallQuery k])%list)
  /\ map fst (scores rs) = map (fun r => mem_document (fst r)) rs
  /\ map snd (scores rs) = map (fun r => (1 - snd r)%float) rs.
Proof.
  intros query k H. split; [|split].
  - unfold handle_retrieve_memory, model_encode, collection_query,
      bind, log, read_collection, ret.
    subst query. cbn. fold k. rewrite H.
    rewrite <- app_assoc. cbn [app].
    destruct rs as [|r rs']; [reflexivity|].
    now rewrite format_results_scores.
  - unfold scores. rewrite map_map. reflexivity.
  - unfold scores. rewrite map_map. reflexivity.
Qed.

Lemma retrieve_scoring_witness :
  let near := Memory "1" "The sky is blue" [] [] in
  let far := Memory "2" "Grass is green" [] [] in
  let engine := fun (_ : list memory) (_ : list float) (_ : Z) =>
    inr [(near, 0.25%float); (far, 1.5%float)] : string + list (memory * float) in
  fst (handle_retrieve_memory encode0 engine format0 (Some "sky") (Some 2%Z) initial)
    = "Found the following memories:" ++ nl ++ nl ++
      String.concat nl
        (render_scores format0 0
           [("The sky is blue", 0.75%float); ("Grass is green", (-0.5)%float)])
  /\ map snd (scores [(near, 0.25%float); (far, 1.5%float)])
     = [0.75%float; (-0.5)%float].
Proof.
  intros near far engine.
  destruct (retrieve_scoring encode0 engine format0 "s"%char "ky" (Some 2%Z)
              initial [(near, 0.25%float); (far, 1.5%float)] eq_refl)
    as (H & _ & Hs).
  split; [rewrite H; reflexivity | rewrite Hs; reflexivity].
Defined.

(* ================================================================== *)
(** * SearchByTag                                                      *)
(* ================================================================== *)

Lemma mem_In (x : string) (xs : list string) : mem x xs = true <-> In x xs.
Proof.
  unfold mem. rewrite existsb_exists. split.
  - intros (y & Hy & Heq). apply String.eqb_eq in Heq. now subst.
  - intros H. exists x. split; [exact H | apply String.eqb_refl].
Qed.

Lemma tag_match_spec (tags : list string) (m : memory) :
  tag_match tags m = true <-> tags_intersect tags m.
Proof.
  unfold tag_match, tags_intersect, any_tag_in.
  destruct (dict_get "tags_str" (mem_metadata m)) as [tags_str|].
  - rewrite existsb_exists. split.
    + intros (tag & Hin & Hmem). apply mem_In in Hmem. eauto.
    + intros (s' & tag & [= <-] & Hin & Hsplit).
      exists tag. split; [exact Hin | now apply mem_In].
  - split; [discriminate|]. intros (s' & tag & H & _). discriminate.
Qed.

Lemma search_loop (tags : list string) (results : list memory) (acc : list string) :
  fold_left (search_step tags) results acc =
  (acc ++ format_matches (List.length acc) (filter (tag_match tags) results))%list.
Proof.
  revert acc. induction results as [|m results IH]; intros acc; cbn [fold_left filter].
  - cbn. now rewrite app_nil_r.
  - rewrite IH. unfold search_step, tag_match.
    destruct (dict_get "tags_str" (mem_metadata m)) as [tags_str|] eqn:Hget;
      [|reflexivity].
    destruct (any_tag_in tags tags_str); [|reflexivity].
    cbn [format_matches]. rewrite Hget, <- app_assoc, length_app.
    cbn. now rewrite Nat.add_1_r.
Qed.

Lemma format_matches_length (i : nat) (ms : list memory) :
  List.length (format_matches i ms) = List.length ms.
Proof.
  revert i. induction ms as [|m ms IH]; intros i; cbn; [reflexivity|].
  now rewrite IH.
Qed.

(** What a call of [handle_search_by_tag] with tags does. *)
Lemma handle_search_by_tag_eq (tag : string) (tags : list string) (w : world) :
  let requested := tag :: tags in
  let hits := filter (tag_match requested) (collection w) in
  handle_search_by_tag (Some requested) w =
    (match collection w, hits with
     | [], _ => "No memories found"
     | _ :: _, [] => "No memories found with tags: " ++ String.concat ", " requested
     | _ :: _, _ :: _ => "Found the following memories:" ++ nl ++ nl ++
                         String.concat nl (format_matches 0 hits)
     end,
     World (collection w) (calls w ++ [CallGetAll])%list).
Proof.
  intros requested hits.
  unfold handle_search_by_tag, collection_get, bind, log, read_collection, ret.
  subst requested. cbn.
  destruct (collection w) as [|m c] eqn:Hc; [reflexivity|].
  rewrite search_loop. cbn [app List.length].
  subst hits.
  destruct (filter (tag_match (tag :: tags)) (m :: c)) as [|h hs] eqn:Hf;
    reflexivity.
Qed.

(** C5. SearchByTag any-of semantics: for a non-empty list of requested
    tags, the records returned are those of the collection whose [tags_str],
    split on ",", has a piece among the requested tags, in the iteration
    order of the collection: the answer lists, one numbered block each, the
    records that [filter] keeps. *)
Theorem search_by_tag_any_of (tag : string) (tags : list string) (w : world) :
  let requested := tag :: tags in
  let hits := filter (tag_match requested) (collection w) in
  handle_search_by_tag (Some requested) w =
    (match collection w, hits with
     | [], _ => "No memories found"
     | _ :: _, [] => "No memories found with tags: " ++ String.concat ", " requested
     | _ :: _, _ :: _ => "Found the following memories:" ++ nl ++ nl ++
                         String.concat nl (format_matches 0 hits)
     end,
     World (collection w) (calls w ++ [CallGetAll])%list)
  /\ (forall m, In m hits <-> In m (collection w) /\ tags_intersect requested m)
  /\ List.length (format_matches 0 hits) = List.length hits.
Proof.
  intros requested hits. split; [|split].
  - apply handle_search_by_tag_eq.
  - intros m. unfold hits. rewrite filter_In, tag_match_spec. reflexivity.
  - apply format_matches_length.
Qed.

(* ================================================================== *)
(** * DeleteByTag                                                      *)
(* ================================================================== *)

Lemma prefix_spec (t s : string) :
  String.prefix t s = true <-> exists post, s = t ++ post.
Proof.
  revert s. induction t as [|c t IH]; intros s.
  - split; [intros _; now exists s | intros _; destruct s; reflexivity].
  - destruct s as [|d s]; cbn.
    + split; [discriminate | intros (post & H); discriminate].
    + destruct (ascii_dec c d) as [->|Hne].
      * rewrite IH. split; intros (post & H); exists post; congruence.
      * split; [discriminate|]. intros (post & H). congruence.
Qed.

(** [contains] is the raw substring test. *)
Lemma contains_spec (t s : string) :
  contains t s = true <-> exists pre post, s = pre ++ t ++ post.
Proof.
  induction s as [|d s IH].
  - cbn [contains]. rewrite orb_false_r, prefix_spec. split.
    + intros (post & H). now exists "", post.
    + intros (pre & post & H). destruct pre; [now exists post|discriminate].
  - cbn [contains]. rewrite orb_true_iff, prefix_spec, IH. split.
    + intros [(post & H)|(pre & post & H)].
      * now exists "", post.
      * exists (String d pre), post. cbn. now rewrite H.
    + intros (pre & post & H). destruct pre as [|e pre]; cbn in H.
      * left. now exists post.
      * right. exists pre, post. congruence.
Qed.

Lemma filter_nil_negb {A} (p : A -> bool) (l : list A) :
  filter p l = [] -> filter (fun x => negb (p x)) l = l.
Proof.
  induction l as [|x l IH]; cbn; [reflexivity|].
  destruct (p x); [discriminate|]. intros H. cbn. now rewrite IH.
Qed.

(** What [handle_delete_by_tag] does with each reply of the engine. *)
Lemma handle_delete_by_tag_eq
    (where_contains : list memory -> string -> string + list memory)
    (a : ascii) (s : string) (w : world) :
  let tag := String a s in
  handle_delete_by_tag where_contains (Some tag) w =
  match where_contains (collection w) tag with
  | inl e =>
      ("Error deleting memories by tag: " ++ e,
       World (collection w) (calls w ++ [CallGetByTag tag])%list)
  | inr [] =>
      ("No memories found with tag '" ++ tag ++ "'",
       World (collection w) (calls w ++ [CallGetByTag tag])%list)
  | inr ((_ :: _) as results) =>
      ("Deleted " ++ str_len (List.length results) ++
       " memories with tag '" ++ tag ++ "'",
       World (filter (fun m => negb (mem (mem_id m) (map mem_id results)))
                (collection w))
             (calls w ++ [CallGetByTag tag; CallDeleteIds (map mem_id results)])%list)
  end.
Proof.
  intros tag.
  unfold handle_delete_by_tag, collection_get_by_tag, collection_delete_ids,
    bind, log, read_collection, write_collection, ret.
  subst tag. cbn -[map mem].
  destruct (where_contains (collection w) (String a s)) as [e|[|r rs]];
    cbn -[map mem]; try reflexivity.
  rewrite <- app_assoc. reflexivity.
Qed.

(** C6, on the code.  [handle_delete_by_tag] asks the engine for the
    records with the metadata filter [$contains], which the engine
    rejects: whatever the non-empty tag and the collection, the call
    raises, the handler answers with the text of its [except] branch, and
    nothing is deleted.  On the three records of [pets], two of which have
    a [tags_str] that contains "cat", DeleteByTag of "cat" reports neither
    a count nor that none was found, and all three records stay. *)
Theorem delete_by_tag_deletes_nothing
    (e : string) (a : ascii) (s : string) (w : world) :
  let tag := String a s in
  handle_delete_by_tag (rejects e) (Some tag) w =
    ("Error deleting memories by tag: " ++ e,
     World (collection w) (calls w ++ [CallGetByTag tag])%list)
  /\ map mem_id (filter (tags_contain "cat") (collection pets)) = ["1"; "2"]
  /\ fst (handle_delete_by_tag (rejects e) (Some "cat") pets) =
       "Error deleting memories by tag: " ++ e
  /\ map mem_id (collection (snd (handle_delete_by_tag (rejects e) (Some "cat") pets)))
     = ["1"; "2"; "3"].
Proof.
  intros tag. split; [|split; [|split]].
  - unfold tag. now rewrite handle_delete_by_tag_eq.
  - reflexivity.
  - now rewrite handle_delete_by_tag_eq.
  - now rewrite handle_delete_by_tag_eq.
Qed.

(* ================================================================== *)
(** * CleanupDuplicates                                                *)
(* ================================================================== *)

Section Cleanup.

Lemma dict_has_keys (k : string) (d : dict) : dict_has k d = mem k (keys d).
Proof.
  unfold dict_has. induction d as [|[k' v] d IH]; cbn; [reflexivity|].
  destruct (String.eqb k k'); [reflexivity | exact IH].
Qed.

Lemma dict_set_new_key (k v : string) (d : dict) :
  dict_has k d = false -> keys (dict_set k v d) = (keys d ++ [k])%list.
Proof.
  unfold dict_has, keys. induction d as [|[k' v'] d IH]; cbn; [reflexivity|].
  destruct (String.eqb k k'); [discriminate|].
  intros H. cbn. now rewrite IH.
Qed.

Lemma cleanup_loop (c : list memory) (seen_hashes : dict) (duplicates : list string) :
  snd (fold_left cleanup_step c (seen_hashes, duplicates)) =
  (duplicates ++ map mem_id (colliders (keys seen_hashes) c))%list.
Proof.
  revert seen_hashes duplicates.
  induction c as [|m c IH]; intros seen_hashes duplicates; cbn [fold_left colliders].
  - cbn. now rewrite app_nil_r.
  - unfold cleanup_step at 2. fold (fingerprint m).
    rewrite dict_has_keys.
    destruct (mem (fingerprint m) (keys seen_hashes)) eqn:Hseen.
    + rewrite IH, <- app_assoc. reflexivity.
    + rewrite IH, dict_set_new_key; [reflexivity|].
      now rewrite dict_has_keys.
Qed.

Lemma colliders_incl (seen : list string) (c : list memory) :
  incl (colliders seen c) c.
Proof.
  revert seen. induction c as [|m c IH]; intros seen; cbn; [easy|].
  destruct (mem (fingerprint m) seen).
  - intros x [->|Hx]; [now left | right; now apply (IH seen)].
  - intros x Hx. right. exact (IH _ x Hx).
Qed.

Lemma split_count (seen : list string) (c : list memory) :
  List.length (colliders seen c) + List.length (survivors seen c) = List.length c.
Proof.
  revert seen. induction c as [|m c IH]; intros seen; cbn; [reflexivity|].
  destruct (mem (fingerprint m) seen); cbn;
    [specialize (IH seen) | specialize (IH (seen ++ [fingerprint m])%list)]; lia.
Qed.

(** Deleting the marked ids leaves the kept records, as ids are distinct. *)
Lemma delete_colliders (seen : list string) (c : list memory) :
  NoDup (map mem_id c) ->
  filter (fun m => negb (mem (mem_id m) (map mem_id (colliders seen c)))) c
  = survivors seen c.
Proof.
  revert seen. induction c as [|m c IH]; intros seen Hnd; [reflexivity|].
  inversion Hnd as [|? ? Hnotin Hnd']; subst.
  cbn [colliders survivors filter].
  destruct (mem (fingerprint m) seen).
  - cbn [map]. 
    assert (Hm : mem (mem_id m) (mem_id m :: map mem_id (colliders seen c)) = true)
      by (apply mem_In; now left).
    rewrite Hm. cbn [negb]. rewrite <- (IH seen Hnd').
    apply filter_ext_in. intros x Hx. f_equal.
    unfold mem. cbn [existsb].
    destruct (String.eqb (mem_id x) (mem_id m)) eqn:Heq; [|reflexivity].
    apply String.eqb_eq in Heq. exfalso. apply Hnotin.
    rewrite <- Heq. now apply in_map.
  - destruct (mem (mem_id m) (map mem_id (colliders (seen ++ [fingerprint m]) c)))
      eqn:Hm.
    + apply mem_In, in_map_iff in Hm. destruct Hm as (x & Hid & Hx).
      apply colliders_incl in Hx. exfalso. apply Hnotin.
      rewrite <- Hid. now apply in_map.
    + cbn [negb]. now rewrite IH.
Qed.

(** A second pass marks nothing. *)
Lemma colliders_survivors (seen : list string) (c : list memory) :
  colliders seen (survivors seen c) = [].
Proof.
  revert seen. induction c as [|m c IH]; intros seen; cbn; [reflexivity|].
  destruct (mem (fingerprint m) seen) eqn:Hseen; [apply IH|].
  cbn. rewrite Hseen. apply IH.
Qed.

Lemma survivors_first (seen : list string) (c : list memory) (m : memory) :
  In m (survivors seen c) <->
  exists pre post,
    c = (pre ++ m :: post)%list
    /\ ~ In (fingerprint m) (seen ++ map fingerprint pre)%list.
Proof.
  revert seen. induction c as [|x c IH]; intros seen; cbn [survivors].
  - split; [contradiction|]. intros (pre & post & H & _). now destruct pre.
  - destruct (mem (fingerprint x) seen) eqn:Hseen.
    + rewrite IH. split.
      * intros (pre & post & -> & Hnot). exists (x :: pre), post. split; [reflexivity|].
        cbn [map]. intros Hin. apply Hnot.
        apply in_app_or in Hin. apply in_or_app.
        destruct Hin as [Hin|[Heq|Hin]]; auto.
        left. rewrite <- Heq. now apply mem_In.
      * intros (pre & post & Heq & Hnot). destruct pre as [|y pre]; cbn in Heq.
        -- injection Heq as -> ->. exfalso. apply Hnot.
           apply in_or_app. left. now apply mem_In.
        -- injection Heq as -> ->. exists pre, post. split; [reflexivity|].
           intros Hin. apply Hnot. cbn [map].
           apply in_app_or in Hin. apply in_or_app.
           destruct Hin; [now left | right; now right].
    + cbn [In]. rewrite IH. split.
      * intros [->|(pre & post & -> & Hnot)].
        -- exists [], c. split; [reflexivity|]. cbn. rewrite app_nil_r.
           intros Hin. apply mem_In in Hin. congruence.
        -- exists (x :: pre), post. split; [reflexivity|].
           cbn [map]. now rewrite <- app_assoc in Hnot.
      * intros (pre & post & Heq & Hnot). destruct pre as [|y pre]; cbn in Heq.
        -- injection Heq as -> ->. now left.
        -- injection Heq as -> ->. right. exists pre, post. split; [reflexivity|].
           cbn [map] in Hnot. now rewrite <- app_assoc.
Qed.

Lemma survivors_fingerprints_NoDup (seen : list string) (c : list memory) :
  NoDup (map fingerprint (survivors seen c))
  /\ forall h, In h (map fingerprint (survivors seen c)) -> ~ In h seen.
Proof.
  revert seen. induction c as [|m c IH]; intros seen; cbn [survivors].
  - split; [constructor | contradiction].
  - destruct (mem (fingerprint m) seen) eqn:Hseen; [apply IH|].
    destruct (IH (seen ++ [fingerprint m])%list) as [Hnd Hnew].
    cbn [map]. split.
    + constructor; [|exact Hnd]. intros Hin. apply (Hnew _ Hin).
      apply in_or_app. right. now left.
    + intros h [<-|Hin].
      * intros Hin. apply mem_In in Hin. congruence.
      * intros Hs. apply (Hnew _ Hin). apply in_or_app. now left.
Qed.

Lemma survivors_fingerprints_cover (seen : list string) (c : list memory) (h : string) :
  In h (map fingerprint c) ->
  In h seen \/ In h (map fingerprint (survivors seen c)).
Proof.
  revert seen. induction c as [|m c IH]; intros seen; cbn [survivors map];
    [contradiction|].
  intros [<-|Hin].
  - destruct (mem (fingerprint m) seen) eqn:Hseen.
    + left. now apply mem_In.
    + right. now left.
  - destruct (mem (fingerprint m) seen).
    + now apply IH.
    + destruct (IH (seen ++ [fingerprint m])%list Hin) as [Hs|Hs].
      * apply in_app_or in Hs. destruct Hs as [Hs|[<-|[]]]; [now left|].
        right. now left.
      * right. now right.
Qed.

End Cleanup.

Lemma filter_everything {A} (l : list A) : filter (fun _ => true) l = l.
Proof. induction l as [|x l IH]; cbn; congruence. Qed.

Lemma handle_cleanup_duplicates_eq (w : world) :
  handle_cleanup_duplicates w =
  let duplicates := map mem_id (colliders [] (collection w)) in
  match duplicates with
  | [] => ("No duplicates found",
           World (collection w) (calls w ++ [CallGetAll])%list)
  | _ :: _ =>
      ("Removed " ++ str_len (List.length duplicates) ++ " duplicate memories",
       World (filter (fun m => negb (mem (mem_id m) duplicates)) (collection w))
             (calls w ++ [CallGetAll; CallDeleteIds duplicates])%list)
  end.
Proof.
  unfold handle_cleanup_duplicates, collection_get, collection_delete_ids,
    bind, log, read_collection, write_collection, ret.
  cbn -[map mem colliders]. rewrite cleanup_loop.
  change (keys []) with (@nil string). cbn -[map mem colliders].
  destruct (map mem_id (colliders [] (collection w))) as [|d ds];
    cbn -[map mem colliders]; [reflexivity|].
  rewrite <- app_assoc. reflexivity.
Qed.

(** C3. Cleanup convergence: on a collection of N records with distinct
    ids, CleanupDuplicates keeps the first record of each recomputed
    fingerprint, in iteration order, and deletes every later record with a
    fingerprint already seen; the survivors have pairwise distinct
    fingerprints, as many as the collection had distinct fingerprints; the
    count reported is N minus that number; and a second run removes
    nothing. *)
Theorem cleanup_convergence (w : world) :
  NoDup (map mem_id (collection w)) ->
  let c := collection w in
  let keep := survivors [] c in
  let removed := List.length c - List.length keep in
  let first_run := handle_cleanup_duplicates w in
  let second_run := handle_cleanup_duplicates (snd first_run) in
  collection (snd first_run) = keep
  /\ fst first_run =
       (if Nat.eqb removed 0 then "No duplicates found"
        else "Removed " ++ str_len removed ++ " duplicate memories")
  /\ List.length keep = List.length (nodup string_dec (map fingerprint c))
  /\ NoDup (map fingerprint keep)
  /\ (forall m, In m keep <->
        exists pre post,
          c = (pre ++ m :: post)%list
          /\ ~ In (fingerprint m) (map fingerprint pre))
  /\ fst second_run = "No duplicates found"
  /\ collection (snd second_run) = keep.
Proof.
  intros Hnd c keep removed first_run second_run.
  assert (Hcount : List.length (colliders [] c) = removed).
  { unfold removed, keep. pose proof (split_count [] c). lia. }
  assert (Hfirst : collection (snd first_run) = keep
                   /\ fst first_run =
                        (if Nat.eqb removed 0 then "No duplicates found"
                         else "Removed " ++ str_len removed ++ " duplicate memories")).
  { unfold first_run. rewrite handle_cleanup_duplicates_eq. fold c.
    cbn zeta. rewrite <- Hcount.
    pose proof (delete_colliders [] c Hnd) as Hdel. fold keep in Hdel.
    destruct (colliders [] c) as [|x xs] eqn:Hcol.
    - cbn. split; [|reflexivity]. rewrite <- Hdel. cbn.
      symmetry. apply filter_everything.
    - rewrite Hdel. rewrite length_map. split; reflexivity. }
  destruct Hfirst as [Hkeep Htext].
  assert (Hsecond : fst second_run = "No duplicates found"
                    /\ collection (snd second_run) = keep).
  { unfold second_run. rewrite handle_cleanup_duplicates_eq, Hkeep.
    unfold keep. rewrite colliders_survivors. cbn. split; reflexivity. }
  assert (Hin : forall m, In m keep <->
      exists pre post,
        c = (pre ++ m :: post)%list
        /\ ~ In (fingerprint m) (map fingerprint pre)).
  { intros m. unfold keep. rewrite survivors_first. reflexivity. }
  repeat split; try tauto; try apply Hin.
  - rewrite <- (length_map fingerprint keep).
    apply Permutation_length, NoDup_Permutation.
    + apply survivors_fingerprints_NoDup.
    + apply NoDup_nodup.
    + intros h. rewrite nodup_In. split.
      * intros Hh. apply in_map_iff in Hh. destruct Hh as (m & <- & Hm).
        apply Hin in Hm. destruct Hm as (pre & post & -> & _).
        apply in_map, in_or_app. right. now left.
      * intros Hh. destruct (survivors_fingerprints_cover [] c h Hh) as [[]|H].
        exact H.
  - apply survivors_fingerprints_NoDup.
Qed.

Lemma cleanup_convergence_witness :
  map mem_id (collection (snd (handle_cleanup_duplicates injected))) = ["1"; "3"]
  /\ fst (handle_cleanup_duplicates injected) = "Removed 2 duplicate memories"
  /\ fst (handle_cleanup_duplicates (snd (handle_cleanup_duplicates injected)))
     = "No duplicates found".
Proof.
  assert (Hnd : NoDup (map mem_id (collection injected)))
    by (repeat constructor; cbn; intuition discriminate).
  destruct (cleanup_convergence injected Hnd) as (H1 & H2 & _ & _ & _ & H3 & _).
  rewrite H1, H2, H3. repeat split; vm_compute; reflexivity.
Defined.

(* ================================================================== *)
(** * Store: the duplicate check                                       *)
(* ================================================================== *)

(** C1. Dedup idempotence, on the code: the same content with the same
    tags and type, stored twice in sequence at two readings of the clock,
    is stored twice.  The timestamp is part of the hashed metadata, so the
    second fingerprint differs from the first, the lookup by
    [content_hash] finds nothing, and the record count grows by 2. *)
Theorem store_twice_stores_twice :
  let request := Some (RawMetadata (Some ["weather"]) (Some "note") []) in
  let first := handle_store_memory encode0 (Clock "1733000000.5" 1733000000500)
                 (Some "The sky is blue") request initial in
  let second := handle_store_memory encode0 (Clock "1733000001.25" 1733000001250)
                  (Some "The sky is blue") request (snd first) in
  fst first = "Successfully stored memory with ID: 1733000000500"
  /\ fst second = "Successfully stored memory with ID: 1733000001250"
  /\ map mem_document (collection (snd second))
     = ["The sky is blue"; "The sky is blue"]
  /\ List.length (collection (snd second)) = 2 + List.length (collection initial).
Proof. vm_compute. repeat split; reflexivity. Qed.

(** The duplicate check does fire when both calls read the same
    timestamp. *)
Example store_twice_same_timestamp :
  let request := Some (RawMetadata (Some ["weather"]) (Some "note") []) in
  let first := handle_store_memory encode0 (Clock "1733000000.5" 1733000000500)
                 (Some "The sky is blue") request initial in
  let second := handle_store_memory encode0 (Clock "1733000000.5" 1733000000501)
                  (Some "The sky is blue") request (snd first) in
  fst second = "Duplicate content detected, skipping storage"
  /\ collection (snd second) = collection (snd first).
Proof. vm_compute. split; reflexivity. Qed.

(* ================================================================== *)
(** * Store: the ids                                                   *)
(* ================================================================== *)

(** [str] is injective on integers. *)
Lemma str_int_inj (n m : Z) : str_int n = str_int m -> n = m.
Proof.
  unfold str_int. intros H.
  assert (Hr : forall d,
    option_map Z.of_int (NilZero.int_of_string (NilZero.string_of_int d))
    = Some (Z.of_int d)).
  { intros [u|u].
    - destruct u; try (rewrite NilZero.isi; [reflexivity|discriminate|discriminate]).
      reflexivity.
    - destruct u; try (rewrite NilZero.isi; [reflexivity|discriminate|discriminate]).
      reflexivity. }
  pose proof (Hr (Z.to_int n)) as Hn. pose proof (Hr (Z.to_int m)) as Hm.
  rewrite H, Hm in Hn. rewrite !DecimalZ.of_to in Hn. congruence.
Qed.

Section Ids.
Variable encode : string -> list float.
Variable nearest : list memory -> list float -> Z -> string + list (memory * float).
Variable format_2f : float -> string.
Variable where_contains : list memory -> string -> string + list memory.

Lemma retrieve_keeps_collection (query : option string) (n : option Z) (w : world) :
  collection (snd (handle_retrieve_memory encode nearest format_2f query n w))
  = collection w.
Proof.
  unfold handle_retrieve_memory, model_encode, collection_query,
    bind, log, read_collection, ret.
  destruct query as [[|a s]|]; cbn; try reflexivity.
  destruct (nearest _ _ _) as [e|[|r rs]]; reflexivity.
Qed.

Lemma search_keeps_collection (ts : option (list string)) (w : world) :
  collection (snd (handle_search_by_tag ts w)) = collection w.
Proof.
  destruct ts as [[|t ts]|]; try reflexivity.
  rewrite handle_search_by_tag_eq. reflexivity.
Qed.

Lemma prefix_empty (s : string) : String.prefix "" s = true.
Proof. now destruct s. Qed.

(** A record alive after a call was alive before it, or was given the id
    that call assigned. *)
Lemma call_ids (c : tool_call) (w : world) (m : memory) :
  In m (collection (snd (handle_call_tool encode nearest format_2f where_contains c w))) ->
  In m (collection w) \/ In (mem_id m) (map str_int (assigns encode c w)).
Proof.
  destruct c as [clk content metadata|query n|ts|h|t|];
    cbn [handle_call_tool assigns].
  - destruct content as [[|a s]|]; try (cbn; now left).
    rewrite handle_store_memory_eq.
    destruct (filter _ (collection w)); cbn; [|now left].
    destruct (existsb _ (collection w)); [now left|].
    intros Hin. apply in_app_or in Hin.
    destruct Hin as [Hin|Hin]; [now left|]. cbn in Hin.
    destruct Hin as [<-|[]]. right.
    rewrite prefix_empty. now left.
  - rewrite retrieve_keeps_collection. now left.
  - rewrite search_keeps_collection. now left.
  - destruct h as [[|a s]|]; cbn; try (now left).
    intros Hin. apply filter_In in Hin. now left.
  - destruct t as [[|a s]|]; try (cbn; now left).
    rewrite handle_delete_by_tag_eq.
    destruct (where_contains _ _) as [e|[|r rs]]; cbn -[map mem]; try (now left).
    intros Hin. apply filter_In in Hin. now left.
  - rewrite handle_cleanup_duplicates_eq. cbn zeta.
    destruct (map mem_id (colliders [] (collection w))); cbn -[mem]; [now left|].
    intros Hin. apply filter_In in Hin. now left.
Qed.

End Ids.

Section Sessions.
Variable encode : string -> list float.
Variable nearest : list memory -> list float -> Z -> string + list (memory * float).
Variable format_2f : float -> string.
Variable where_contains : list memory -> string -> string + list memory.

Lemma serve_cons (c : tool_call) (cs : list tool_call) (w : world) :
  snd (serve encode nearest format_2f where_contains (c :: cs) w) =
  snd (serve encode nearest format_2f where_contains cs
         (snd (handle_call_tool encode nearest format_2f where_contains c w))).
Proof.
  cbn [serve]. unfold bind, ret.
  destruct (handle_call_tool encode nearest format_2f where_contains c w) as [r w1]. cbn [snd].
  destruct (serve encode nearest format_2f where_contains cs w1) as [rs w2]. reflexivity.
Qed.

(** The ids alive after a session were alive before it or were assigned
    by one of its store calls. *)
Lemma session_ids (cs : list tool_call) (w : world) (m : memory) :
  In m (collection (snd (serve encode nearest format_2f where_contains cs w))) ->
  In m (collection w)
  \/ In (mem_id m)
       (map str_int (assigned_millis encode nearest format_2f where_contains cs w)).
Proof.
  revert w. induction cs as [|c cs IH]; intros w; [now left|].
  rewrite serve_cons. intros Hin. cbn [assigned_millis].
  rewrite map_app, in_app_iff.
  destruct (IH _ Hin) as [H|H]; [|tauto].
  destruct (call_ids encode nearest format_2f where_contains c w m H); tauto.
Qed.

Lemma fresh_id_not_live (id : string) (c : list memory) :
  ~ In id (map mem_id c) -> existsb (has_id id) c = false.
Proof.
  intros Hnot. destruct (existsb (has_id id) c) eqn:Hex; [|reflexivity].
  apply existsb_exists in Hex. destruct Hex as (m & Hm & Hid).
  unfold has_id in Hid. apply String.eqb_eq in Hid.
  exfalso. apply Hnot. rewrite <- Hid. now apply in_map.
Qed.

(** C8, as the code has it. Id uniqueness: in a session served from the
    empty collection, a store call whose millisecond reading of the clock
    is the reading of no earlier store call that assigned an id is given
    an id that no live record has at the time of the call and that no
    earlier store call assigned, whether that record has been deleted
    since or not; every live record carries the id some store call of the
    session assigned; and when the call reports success, its record is
    written under that id. *)
Theorem fresh_id_under_distinct_readings
    (cs : list tool_call) (clk : clock)
    (content : option string) (metadata : option raw_metadata) :
  let earlier := assigned_millis encode nearest format_2f where_contains cs initial in
  ~ In (millis clk) earlier ->
  let w := snd (serve encode nearest format_2f where_contains cs initial) in
  let id := str_int (millis clk) in
  let run := handle_store_memory encode clk content metadata w in
  ~ In id (map mem_id (collection w))
  /\ ~ In id (map str_int earlier)
  /\ (forall m, In m (collection w) -> In (mem_id m) (map str_int earlier))
  /\ (forall m, written m w (snd run) -> mem_id m = id)
  /\ (fst run = "Successfully stored memory with ID: " ++ id ->
      exists m, written m w (snd run) /\ mem_id m = id).
Proof.
  intros earlier Hfresh w id run.
  assert (Hlive : forall m, In m (collection w) ->
                            In (mem_id m) (map str_int earlier)).
  { intros m Hm. destruct (session_ids cs initial m Hm) as [[]|H]. exact H. }
  assert (Hnew : ~ In id (map str_int earlier)).
  { intros Hin. apply in_map_iff in Hin. destruct Hin as (t & Heq & Ht).
    apply str_int_inj in Heq. now subst t. }
  assert (Hid : ~ In id (map mem_id (collection w))).
  { intros Hin. apply in_map_iff in Hin. destruct Hin as (m & Hid & Hm).
    apply Hnew. rewrite <- Hid. now apply Hlive. }
  split; [exact Hid|]. split; [exact Hnew|]. split; [exact Hlive|]. split.
  - intros m Hm. apply written_by_store in Hm.
    destruct Hm as (a & s & _ & ->). reflexivity.
  - unfold run. destruct content as [[|a s]|]; try (cbn; discriminate).
    rewrite handle_store_memory_eq. fold id.
    destruct (filter _ (collection w)); [|cbn; discriminate].
    rewrite (fresh_id_not_live id (collection w) Hid). cbn [fst snd collection].
    intros _.
    exists (Memory id (String a s)
              (stored_metadata (stamp clk) (String a s) metadata)
              (encode (String a s))).
    split; [split|reflexivity].
    + apply in_or_app. right. now left.
    + intros Hin. apply Hid.
      apply (in_map mem_id) in Hin. exact Hin.
Qed.

End Sessions.

Lemma fresh_id_under_distinct_readings_witness :
  let tom := Clock "1733000002.75" 1733000002750 in
  let h := _generate_hash "Tom is a cat"
             (process_metadata (stamp tom) (Some (RawMetadata (Some ["cat"]) None []))) in
  let session :=
    [ store_memory tom (Some "Tom is a cat")
        (Some (RawMetadata (Some ["cat"]) None []));
      store_memory (Clock "1733000001.0" 1733000001000) None None;
      delete_memory (Some h) ] in
  let w := snd (serve encode0 nearest0 format0 where_contains0 session initial) in
  ~ In "1733000001000" (map mem_id (collection w))
  /\ ~ In "1733000001000"
        (map str_int
           (assigned_millis encode0 nearest0 format0 where_contains0 session initial)).
Proof.
  intros tom h session w.
  assert (Hfresh : ~ In 1733000001000%Z
            (assigned_millis encode0 nearest0 format0 where_contains0 session initial)).
  { vm_compute. intros [H|[]]. discriminate H. }
  destruct (fresh_id_under_distinct_readings encode0 nearest0 format0 where_contains0
              session (Clock "1733000001.0" 1733000001000) (Some "Rex is a dog") None
              Hfresh) as (H1 & H2 & _).
  split; [exact H1 | exact H2].
Defined.

(** C8, as the specification words it: each assigned id is unique among the
    live records and never reused.  Two store calls that read the same
    millisecond from the clock are given the same id: the second call
    reports success under the id of the live record of the first; and
    when the first record has been deleted in between, its id is assigned
    again. *)
Lemma id_uniqueness_counterexample :
  let tom := Clock "1733000000.5001" 1733000000500 in
  let rex := Clock "1733000000.5004" 1733000000500 in
  let first := handle_store_memory encode0 tom (Some "Tom is a cat") None initial in
  let second := handle_store_memory encode0 rex (Some "Rex is a dog") None (snd first) in
  let h := _generate_hash "Tom is a cat" (process_metadata (stamp tom) None) in
  let session :=
    [ store_memory tom (Some "Tom is a cat") None;
      delete_memory (Some h);
      store_memory rex (Some "Rex is a dog") None ] in
  let served := serve encode0 nearest0 format0 where_contains0 session initial in
  fst first = "Successfully stored memory with ID: 1733000000500"
  /\ map mem_id (collection (snd first)) = ["1733000000500"]
  /\ fst second = "Successfully stored memory with ID: 1733000000500"
  /\ In "1733000000500" (map mem_id (collection (snd first)))
  /\ fst served =
     [ "Successfully stored memory with ID: 1733000000500";
       "Memory with hash " ++ h ++ " deleted successfully";
       "Successfully stored memory with ID: 1733000000500" ]
  /\ map (fun m => (mem_id m, mem_document m)) (collection (snd served)) =
     [ ("1733000000500", "Rex is a dog") ].
Proof. vm_compute. repeat split; try reflexivity. now left. Qed.

(* ================================================================== *)
(** * The fingerprint Store persists and the one Cleanup recomputes    *)
(* ================================================================== *)

Section Append.

Lemma append_assoc (a b c : string) : (a ++ b) ++ c = a ++ b ++ c.
Proof. induction a as [|x a IH]; cbn; [reflexivity | now rewrite IH]. Qed.

Lemma append_nil_r (a : string) : a ++ "" = a.
Proof. induction a as [|x a IH]; cbn; [reflexivity | now rewrite IH]. Qed.

Lemma length_append (a b : string) :
  String.length (a ++ b) = String.length a + String.length b.
Proof. induction a as [|x a IH]; cbn; [reflexivity | now rewrite IH]. Qed.

Lemma append_inv_head (s a b : string) : s ++ a = s ++ b -> a = b.
Proof. induction s as [|x s IH]; cbn; [easy|]. intros [= H]. auto. Qed.

Lemma append_eq_length (a b x y : string) :
  a ++ x = b ++ y -> String.length a = String.length b -> a = b /\ x = y.
Proof.
  revert b. induction a as [|c a IH]; intros [|d b]; cbn; try discriminate.
  - intros H _. now split.
  - intros [= -> H] [= Hlen]. destruct (IH b H Hlen) as [-> ->]. now split.
Qed.

Lemma append_inv_tail (a b s : string) : a ++ s = b ++ s -> a = b.
Proof.
  intros H. apply (append_eq_length a b s s H).
  apply (f_equal String.length) in H. rewrite !length_append in H. lia.
Qed.

End Append.

(** A digest is 64 hexadecimal digits. *)
Lemma sha256_length (s : string) : String.length (sha256 s) = 64.
Proof.
  unfold sha256, hexdigest. rewrite !length_append. reflexivity.
Qed.

Lemma store_hash_content (now content : string) (metadata : option raw_metadata) :
  hash_content content (process_metadata now metadata) =
  content ++ rendered_prefix metadata ++ now ++ rendered_suffix metadata.
Proof.
  rewrite hash_content_eq, process_metadata_shape.
  unfold rendered_prefix, rendered_suffix. f_equal.
  destruct (supplied_tags metadata) as [ts|], (supplied_type metadata) as [t|];
    cbn; rewrite ?append_assoc; cbn; rewrite ?append_nil_r; reflexivity.
Qed.

Lemma cleanup_hash_content (now content : string) (metadata : option raw_metadata) :
  hash_content content (stored_metadata now content metadata) =
  content ++ "content_hash:" ++
    _generate_hash content (process_metadata now metadata) ++ "," ++
    rendered_prefix metadata ++ now ++ rendered_suffix metadata.
Proof.
  rewrite hash_content_eq, stored_metadata_shape, process_metadata_shape.
  generalize (_generate_hash content
    (match supplied_tags metadata with
     | Some ts => [("tags_str", String.concat "," ts)]
     | None => []
     end ++
     match supplied_type metadata with
     | Some t => [("type", t)]
     | None => []
     end ++ [("timestamp", now)])%list).
  intros h.
  unfold rendered_prefix, rendered_suffix. f_equal.
  destruct (supplied_tags metadata) as [ts|], (supplied_type metadata) as [t|];
    cbn; rewrite ?append_assoc; cbn; rewrite ?append_nil_r; reflexivity.
Qed.

(** The string CleanupDuplicates hashes for a record created by Store is
    taken over the full persisted metadata, [content_hash] and [timestamp]
    included, while Store hashed the metadata before [content_hash] was
    added: it is the content, then the [content_hash] entry, then the
    entries Store hashed.  So it is never the string Store hashed, and for
    two records created by Store from the same content, tags and type at
    different timestamps the strings Cleanup hashes differ. *)
Theorem cleanup_hashes_another_string
    (encode : string -> list float) (clk1 clk2 : clock)
    (content : option string) (metadata : option raw_metadata)
    (w1 w2 : world) (m1 m2 : memory) :
  written m1 w1 (snd (handle_store_memory encode clk1 content metadata w1)) ->
  written m2 w2 (snd (handle_store_memory encode clk2 content metadata w2)) ->
  stamp clk1 <> stamp clk2 ->
  let persisted :=
    _generate_hash (mem_document m1) (process_metadata (stamp clk1) metadata) in
  dict_get "content_hash" (mem_metadata m1) = Some persisted
  /\ dict_get "timestamp" (mem_metadata m1) = Some (stamp clk1)
  /\ hash_content (mem_document m1) (mem_metadata m1) =
       mem_document m1 ++ "content_hash:" ++ persisted ++ "," ++
       rendered_prefix metadata ++ stamp clk1 ++ rendered_suffix metadata
  /\ hash_content (mem_document m1) (mem_metadata m1) <>
       hash_content (mem_document m1) (process_metadata (stamp clk1) metadata)
  /\ hash_content (mem_document m1) (mem_metadata m1) <>
       hash_content (mem_document m2) (mem_metadata m2).
Proof.
  intros H1 H2 Hstamp persisted.
  apply written_by_store in H1, H2.
  destruct H1 as (a & s & -> & ->). destruct H2 as (a' & s' & [= <- <-] & ->).
  cbn [mem_document mem_metadata] in *. subst persisted.
  set (c := String a s) in *.
  pose proof (stored_metadata_lookup (stamp clk1) c metadata)
    as (_ & _ & Hts & Hch & _).
  split; [exact Hch|]. split; [exact Hts|].
  split; [apply cleanup_hash_content|]. split.
  - rewrite cleanup_hash_content, store_hash_content. intros Heq.
    apply (f_equal String.length) in Heq.
    rewrite !length_append in Heq. cbn in Heq. lia.
  - rewrite !cleanup_hash_content. intros Heq.
    apply append_inv_head in Heq. apply (append_inv_head "content_hash:") in Heq.
    apply append_eq_length in Heq;
      [|unfold _generate_hash; now rewrite !sha256_length].
    destruct Heq as [_ Heq].
    apply (append_inv_head ",") in Heq. apply append_inv_head in Heq.
    apply append_inv_tail in Heq. contradiction.
Qed.

Lemma cleanup_hashes_another_string_witness :
  let request := Some (RawMetadata (Some ["weather"]) (Some "note") []) in
  let m1 := Memory "1733000000500" "The sky is blue"
              (stored_metadata "1733000000.5" "The sky is blue" request) [] in
  let m2 := Memory "1733000001250" "The sky is blue"
              (stored_metadata "1733000001.25" "The sky is blue" request) [] in
  hash_content (mem_document m1) (mem_metadata m1) <>
    hash_content (mem_document m1) (process_metadata "1733000000.5" request)
  /\ hash_content (mem_document m1) (mem_metadata m1) <>
       hash_content (mem_document m2) (mem_metadata m2).
Proof.
  intros request m1 m2.
  assert (H1 : written m1 initial
            (snd (handle_store_memory encode0 (Clock "1733000000.5" 1733000000500)
                    (Some "The sky is blue") request initial)))
    by (split; [vm_compute; left; reflexivity | cbn; tauto]).
  assert (H2 : written m2 initial
            (snd (handle_store_memory encode0 (Clock "1733000001.25" 1733000001250)
                    (Some "The sky is blue") request initial)))
    by (split; [vm_compute; left; reflexivity | cbn; tauto]).
  assert (Hstamp : stamp (Clock "1733000000.5" 1733000000500) <>
                   stamp (Clock "1733000001.25" 1733000001250))
    by (cbn; discriminate).
  destruct (cleanup_hashes_another_string encode0 _ _ _ _ _ _ _ _
              H1 H2 Hstamp) as (_ & _ & _ & Ha & Hb).
  split; assumption.
Defined.

(** On these two records the digests do differ. *)
Example recomputed_fingerprints_concrete :
  let request := Some (RawMetadata (Some ["weather"]) (Some "note") []) in
  let m1 := Memory "1733000000500" "The sky is blue"
              (stored_metadata "1733000000.5" "The sky is blue" request) [] in
  let m2 := Memory "1733000001250" "The sky is blue"
              (stored_metadata "1733000001.25" "The sky is blue" request) [] in
  String.eqb (fingerprint m1) (fingerprint m2) = false
  /\ option_map (String.eqb (fingerprint m1))
       (dict_get "content_hash" (mem_metadata m1)) = Some false
  /\ colliders [] [m1; m2] = [].
Proof. vm_compute. repeat split; reflexivity. Qed.

(* ================================================================== *)
(** * The examples of the specification                                *)
(* ================================================================== *)

(** Records tagged {a, b}, {b, c} and {d}: a search for b returns the
    first two. *)
Example tag_search_any_of :
  let session :=
    [ store_memory (Clock "1.5" 1500) (Some "first")
        (Some (RawMetadata (Some ["a"; "b"]) None []));
      store_memory (Clock "2.5" 2500) (Some "second")
        (Some (RawMetadata (Some ["b"; "c"]) None []));
      store_memory (Clock "3.5" 3500) (Some "third")
        (Some (RawMetadata (Some ["d"]) None [])) ] in
  let w := snd (serve encode0 nearest0 format0 where_contains0 session initial) in
  map mem_document (filter (tag_match ["b"]) (collection w)) = ["first"; "second"]
  /\ fst (handle_search_by_tag (Some ["b"]) w) =
     "Found the following memories:" ++ nl ++ nl ++
     "Memory 1:" ++ nl ++ "Content: first" ++ nl ++ "Tags: a,b" ++ nl ++ "---" ++ nl ++
     "Memory 2:" ++ nl ++ "Content: second" ++ nl ++ "Tags: b,c" ++ nl ++ "---".
Proof. vm_compute. split; reflexivity. Qed.

(** Store, search by tag, delete by tag, retrieve. *)
Example end_to_end (e : string) :
  fst (serve encode0 nearest0 format0 (rejects e)
         [ store_memory (Clock "1.5" 1500) (Some "The sky is blue")
             (Some (RawMetadata (Some ["weather"]) None []));
           search_by_tag (Some ["weather"]);
           delete_by_tag (Some "weather");
           retrieve_memory (Some "sky color") (Some 1%Z);
           delete_memory (Some "0000");
           cleanup_duplicates ]
         initial) =
  [ "Successfully stored memory with ID: 1500";
    "Found the following memories:" ++ nl ++ nl ++
    "Memory 1:" ++ nl ++ "Content: The sky is blue" ++ nl ++
    "Tags: weather" ++ nl ++ "---";
    "Error deleting memories by tag: " ++ e;
    "Found the following memories:" ++ nl ++ nl ++
    "Memory 1:" ++ nl ++ "Content: The sky is blue" ++ nl ++
    "Relevance Score: ?" ++ nl ++ "---";
    "Memory with hash 0000 deleted successfully";
    "No duplicates found" ].
Proof. vm_compute. reflexivity. Qed.

(* ================================================================== *)
(** * DeleteById                                                       *)
(* ================================================================== *)

Lemma filter_twice {A} (p : A -> bool) (l : list A) :
  filter p (filter p l) = filter p l.
Proof.
  induction l as [|x l IH]; cbn; [reflexivity|].
  destruct (p x) eqn:Hp; cbn; [rewrite Hp; now f_equal | exact IH].
Qed.

Lemma has_hash_spec (h : string) (m : memory) :
  has_hash h m = true <-> dict_get "content_hash" (mem_metadata m) = Some h.
Proof.
  unfold has_hash. destruct (dict_get "content_hash" (mem_metadata m)) as [h'|].
  - rewrite String.eqb_eq. split; congruence.
  - split; discriminate.
Qed.

(** [handle_delete_memory] with a hash deletes the records that carry it
    as [content_hash] and no other, answers with the same confirmation
    whether or not any record matched, and a second call with the same
    hash changes nothing more; with an absent or empty hash it answers an
    error and calls nothing. *)
Theorem delete_memory_idempotent (a : ascii) (s : string) (w : world) :
  let h := String a s in
  let first := handle_delete_memory (Some h) w in
  let second := handle_delete_memory (Some h) (snd first) in
  fst first = "Memory with hash " ++ h ++ " deleted successfully"
  /\ fst second = fst first
  /\ (forall m, In m (collection (snd first)) <->
        In m (collection w)
        /\ dict_get "content_hash" (mem_metadata m) <> Some h)
  /\ collection (snd second) = collection (snd first)
  /\ calls (snd first) = (calls w ++ [CallDeleteByHash h])%list
  /\ handle_delete_memory None w = ("Error: Content hash is required", w)
  /\ handle_delete_memory (Some "") w = ("Error: Content hash is required", w).
Proof.
  intros h first second.
  unfold second, first, handle_delete_memory, collection_delete_by_hash,
    bind, log, read_collection, write_collection, ret. subst h. cbn.
  split; [reflexivity|]. split; [reflexivity|]. split; [|split].
  - intros m. rewrite filter_In. split.
    + intros [Hin Hneg]. split; [exact Hin|].
      intros Hget. apply has_hash_spec in Hget. rewrite Hget in Hneg. discriminate.
    + intros [Hin Hne]. split; [exact Hin|].
      destruct (has_hash (String a s) m) eqn:Hh; [|reflexivity].
      apply has_hash_spec in Hh. contradiction.
  - apply filter_twice.
  - repeat split; reflexivity.
Qed.

Lemma sha256_not_empty (x : string) : exists a s, sha256 x = String a s.
Proof.
  pose proof (sha256_length x) as H.
  destruct (sha256 x) as [|a s]; [discriminate | now exists a, s].
Qed.

(** Store followed by [handle_delete_memory] on the [content_hash] of the
    record just written gives the collection back as it was. *)
Theorem store_then_delete_restores
    (encode : string -> list float) (clk : clock)
    (content : option string) (metadata : option raw_metadata)
    (w : world) (m : memory) :
  let stored := snd (handle_store_memory encode clk content metadata w) in
  written m w stored ->
  collection
    (snd (handle_delete_memory (dict_get "content_hash" (mem_metadata m)) stored))
  = collection w.
Proof.
  intros stored Hw.
  destruct (written_by_store _ _ _ _ _ _ Hw) as (a & s & -> & ->).
  destruct Hw as [Hin Hnot]. unfold stored in *.
  rewrite handle_store_memory_eq in *.
  pose proof (stored_metadata_lookup (stamp clk) (String a s) metadata)
    as (_ & _ & _ & Hch & _).
  cbn [mem_metadata]. rewrite Hch.
  set (h := _generate_hash (String a s) (process_metadata (stamp clk) metadata)) in *.
  destruct (sha256_not_empty
              (hash_content (String a s) (process_metadata (stamp clk) metadata)))
    as (x & t & Hh).
  change (h = String x t) in Hh.
  destruct (filter (has_hash h) (collection w)) eqn:Hnone;
    [|cbn in Hin; contradiction].
  destruct (existsb _ (collection w)); [cbn in Hin; contradiction|].
  rewrite Hh. unfold handle_delete_memory, collection_delete_by_hash,
    bind, log, read_collection, write_collection, ret. cbn.
  rewrite <- Hh. rewrite filter_app. cbn.
  assert (Hnew : has_hash h
            (Memory (str_int (millis clk)) (String a s)
               (stored_metadata (stamp clk) (String a s) metadata)
               (encode (String a s))) = true)
    by (apply has_hash_spec; exact Hch).
  rewrite Hnew. cbn. rewrite app_nil_r. now apply filter_nil_negb.
Qed.

Lemma store_then_delete_restores_witness :
  let stored := snd (handle_store_memory encode0 (Clock "1.5" 1500)
                       (Some "Rex is a dog") None pets) in
  collection
    (snd (handle_delete_memory
            (Some (_generate_hash "Rex is a dog" (process_metadata "1.5" None)))
            stored))
  = collection pets.
Proof.
  intros stored.
  apply (store_then_delete_restores encode0 (Clock "1.5" 1500)
           (Some "Rex is a dog") None pets
           (Memory "1500" "Rex is a dog"
              (stored_metadata "1.5" "Rex is a dog" None) [])).
  split.
  - vm_compute. right. right. right. left. reflexivity.
  - cbn. intros [H|[H|[H|[]]]]; discriminate.
Defined.

(* ================================================================== *)
(** * What a session keeps true of the collection                     *)
(* ================================================================== *)

Section Invariants.
Variable encode : string -> list float.
Variable nearest : list memory -> list float -> Z -> string + list (memory * float).
Variable format_2f : float -> string.
Variable where_contains : list memory -> string -> string + list memory.

(** A tool call filters the collection, or appends one record whose id
    and whose [content_hash] no record had. *)
Lemma call_shape (c : tool_call) (w : world) :
  let after := collection (snd (handle_call_tool encode nearest format_2f where_contains c w)) in
  (exists p, after = filter p (collection w))
  \/ (exists m h,
        after = (collection w ++ [m])%list
        /\ existsb (has_id (mem_id m)) (collection w) = false
        /\ dict_get "content_hash" (mem_metadata m) = Some h
        /\ filter (has_hash h) (collection w) = []).
Proof.
  assert (Hsame : forall l : list memory, exists p, l = filter p l)
    by (intros l; exists (fun _ => true); now rewrite filter_everything).
  destruct c as [clk content metadata|query n|ts|h|t|]; cbn [handle_call_tool].
  - destruct content as [[|a s]|]; try (left; apply Hsame).
    rewrite handle_store_memory_eq.
    destruct (filter _ (collection w)) eqn:Hnone; [|left; apply Hsame].
    cbn [snd collection].
    destruct (existsb _ (collection w)) eqn:Hid; [left; apply Hsame|].
    right. eexists. eexists. split; [reflexivity|]. split; [exact Hid|].
    split; [|exact Hnone].
    apply stored_metadata_lookup.
  - left. rewrite retrieve_keeps_collection. apply Hsame.
  - left. rewrite search_keeps_collection. apply Hsame.
  - left. destruct h as [[|a s]|]; try apply Hsame. cbn. eauto.
  - left. destruct t as [[|a s]|]; try apply Hsame.
    rewrite handle_delete_by_tag_eq.
    destruct (where_contains _ _) as [e|[|r rs]]; cbn -[map mem];
      [apply Hsame | apply Hsame | eauto].
  - left. rewrite handle_cleanup_duplicates_eq. cbn zeta.
    destruct (map mem_id (colliders [] (collection w))); cbn -[mem];
      [apply Hsame | eauto].
Qed.

End Invariants.

Lemma kept_keys_distinct {A B : Type} (keep : A -> bool) (key : A -> B) :
  forall rows : list A,
    NoDup (map key rows) -> NoDup (map key (filter keep rows)).
Proof.
  intros rows. induction rows as [|r rows IH]; cbn; [easy|].
  intros Hd. apply NoDup_cons_iff in Hd. destruct Hd as [Hfresh Hd].
  destruct (keep r); cbn; [|now apply IH].
  apply NoDup_cons; [|now apply IH].
  intros Hin. apply Hfresh. apply in_map_iff in Hin.
  destruct Hin as (y & Hy & Hin). apply filter_In in Hin.
  rewrite <- Hy. apply in_map. tauto.
Qed.

Lemma content_hashes_In (h : string) (c : list memory) :
  In h (content_hashes c) <-> exists m, In m c /\ has_hash h m = true.
Proof.
  unfold content_hashes. rewrite in_flat_map. split.
  - intros (m & Hm & Hin). exists m. split; [exact Hm|].
    apply has_hash_spec.
    destruct (dict_get "content_hash" (mem_metadata m)) as [h'|];
      [|contradiction]. destruct Hin as [->|[]]. reflexivity.
  - intros (m & Hm & Hh). exists m. split; [exact Hm|].
    apply has_hash_spec in Hh. rewrite Hh. now left.
Qed.

Lemma content_hashes_filter (p : memory -> bool) (c : list memory) :
  NoDup (content_hashes c) -> NoDup (content_hashes (filter p c)).
Proof.
  induction c as [|m c IH]; cbn; [easy|].
  intros H. apply NoDup_app_remove_l in H as Hc.
  destruct (p m); [|now apply IH].
  cbn. destruct (dict_get "content_hash" (mem_metadata m)) as [h|] eqn:Hget;
    cbn in *; [|now apply IH].
  inversion H as [|? ? Hnotin Hnd]; subst.
  constructor; [|now apply IH].
  intros Hin. apply Hnotin. apply content_hashes_In in Hin.
  destruct Hin as (x & Hx & Hh). apply filter_In in Hx.
  apply content_hashes_In. exists x. tauto.
Qed.

Lemma NoDup_snoc {A} (l : list A) (x : A) :
  NoDup l -> ~ In x l -> NoDup (l ++ [x]).
Proof.
  intros Hl Hx. apply NoDup_app; [exact Hl | repeat constructor; easy |].
  intros y Hy [<-|[]]. contradiction.
Qed.

Section SessionInvariants.
Variable encode : string -> list float.
Variable nearest : list memory -> list float -> Z -> string + list (memory * float).
Variable format_2f : float -> string.
Variable where_contains : list memory -> string -> string + list memory.

Lemma call_keeps_ids_distinct (c : tool_call) (w : world) :
  NoDup (map mem_id (collection w)) ->
  NoDup (map mem_id
           (collection (snd (handle_call_tool encode nearest format_2f where_contains c w)))).
Proof.
  intros Hnd.
  destruct (call_shape encode nearest format_2f where_contains c w)
    as [(p & ->)|(m & h & -> & Hid & _)].
  - now apply kept_keys_distinct.
  - rewrite map_app. apply NoDup_snoc; [exact Hnd|].
    intros Hin. apply in_map_iff in Hin. destruct Hin as (x & Hx & Hin).
    assert (Hex : existsb (has_id (mem_id m)) (collection w) = true).
    { apply existsb_exists. exists x. split; [exact Hin|].
      unfold has_id. now apply String.eqb_eq. }
    congruence.
Qed.

Lemma call_keeps_hashes_distinct (c : tool_call) (w : world) :
  NoDup (content_hashes (collection w)) ->
  NoDup (content_hashes
           (collection (snd (handle_call_tool encode nearest format_2f where_contains c w)))).
Proof.
  intros Hnd.
  destruct (call_shape encode nearest format_2f where_contains c w)
    as [(p & ->)|(m & h & -> & _ & Hget & Hnone)].
  - now apply content_hashes_filter.
  - unfold content_hashes. rewrite flat_map_app. cbn [flat_map].
    rewrite Hget, app_nil_r. apply NoDup_snoc; [exact Hnd|].
    intros Hin. apply content_hashes_In in Hin. destruct Hin as (x & Hx & Hh).
    assert (Hf : In x (filter (has_hash h) (collection w)))
      by (apply filter_In; now split).
    rewrite Hnone in Hf. contradiction.
Qed.

(** Whatever the tool calls of a session, served one after the other,
    the ids of the live records stay pairwise distinct. *)
Theorem session_keeps_ids_distinct (cs : list tool_call) (w : world) :
  NoDup (map mem_id (collection w)) ->
  NoDup (map mem_id (collection (snd (serve encode nearest format_2f where_contains cs w)))).
Proof.
  revert w. induction cs as [|c cs IH]; intros w Hnd; [exact Hnd|].
  rewrite serve_cons. apply IH. now apply call_keeps_ids_distinct.
Qed.

(** Whatever the tool calls of a session, served one after the other, no
    two live records come to share a [content_hash]: Store writes a record
    only after finding no record with its hash, and every other tool only
    removes records. *)
Theorem session_keeps_hashes_distinct (cs : list tool_call) (w : world) :
  NoDup (content_hashes (collection w)) ->
  NoDup (content_hashes (collection (snd (serve encode nearest format_2f where_contains cs w)))).
Proof.
  revert w. induction cs as [|c cs IH]; intros w Hnd; [exact Hnd|].
  rewrite serve_cons. apply IH. now apply call_keeps_hashes_distinct.
Qed.

End SessionInvariants.

Lemma session_keeps_ids_distinct_witness :
  NoDup (map mem_id
           (collection (snd (serve encode0 nearest0 format0 where_contains0 busy_session pets)))).
Proof.
  apply (session_keeps_ids_distinct encode0 nearest0 format0 where_contains0
           busy_session pets).
  repeat constructor; cbn; intuition discriminate.
Defined.

Lemma session_keeps_hashes_distinct_witness :
  NoDup (content_hashes
           (collection (snd (serve encode0 nearest0 format0 where_contains0 busy_session pets)))).
Proof.
  apply (session_keeps_hashes_distinct encode0 nearest0 format0 where_contains0
           busy_session pets).
  cbn. constructor.
Defined.

(* ================================================================== *)
(** * Store: what the duplicate check catches, and what Store leaves   *)
(* ================================================================== *)

(** The same content and metadata stored again at the same timestamp is
    answered as a duplicate: nothing is written, and the embedding is not
    computed.  (The first call wrote its record, or was itself answered as
    a duplicate.) *)
Theorem store_again_at_same_timestamp
    (encode : string -> list float) (clk1 clk2 : clock)
    (a : ascii) (s : string) (metadata : option raw_metadata) (w : world) :
  stamp clk1 = stamp clk2 ->
  ~ In (str_int (millis clk1)) (map mem_id (collection w)) ->
  let content := Some (String a s) in
  let first := handle_store_memory encode clk1 content metadata w in
  let second := handle_store_memory encode clk2 content metadata (snd first) in
  fst second = "Duplicate content detected, skipping storage"
  /\ collection (snd second) = collection (snd first)
  /\ calls (snd second) =
       (calls (snd first) ++
        [CallGetByHash
           (_generate_hash (String a s) (process_metadata (stamp clk2) metadata))])%list.
Proof.
  intros Hstamp Hfresh content first second.
  unfold second, first, content. rewrite !handle_store_memory_eq. rewrite <- Hstamp.
  set (h := _generate_hash (String a s) (process_metadata (stamp clk1) metadata)).
  assert (Hid : existsb (has_id (str_int (millis clk1))) (collection w) = false).
  { destruct (existsb _ (collection w)) eqn:Hex; [|reflexivity].
    apply existsb_exists in Hex. destruct Hex as (x & Hx & Heq).
    unfold has_id in Heq. apply String.eqb_eq in Heq.
    exfalso. apply Hfresh. rewrite <- Heq. now apply in_map. }
  destruct (filter (has_hash h) (collection w)) as [|x xs] eqn:Hf.
  - rewrite Hid. cbn [snd collection calls]. rewrite filter_app.
    assert (Hnew : has_hash h
              (Memory (str_int (millis clk1)) (String a s)
                 (stored_metadata (stamp clk1) (String a s) metadata)
                 (encode (String a s))) = true).
    { apply has_hash_spec. apply stored_metadata_lookup. }
    cbn [filter]. rewrite Hnew, Hf. cbn. repeat split; reflexivity.
  - cbn [snd collection calls]. rewrite Hf. cbn. repeat split; reflexivity.
Qed.

Lemma store_again_at_same_timestamp_witness :
  let first := handle_store_memory encode0 (Clock "1.5" 1500)
                 (Some "Rex is a dog") None pets in
  let second := handle_store_memory encode0 (Clock "1.5" 1502)
                  (Some "Rex is a dog") None (snd first) in
  fst second = "Duplicate content detected, skipping storage"
  /\ collection (snd second) = collection (snd first).
Proof.
  intros first second.
  destruct (store_again_at_same_timestamp encode0 (Clock "1.5" 1500)
              (Clock "1.5" 1502) "R"%char "ex is a dog" None pets eq_refl)
    as (H1 & H2 & _).
  - cbn. intros [H|[H|[H|[]]]]; discriminate.
  - split; [exact H1 | exact H2].
Defined.

(** Store never removes or alters a record: the collection it leaves is
    the one it found, followed by at most one new record; and when it
    answers with an error or a duplicate notice, by none. *)
Theorem store_appends_only
    (encode : string -> list float) (clk : clock)
    (content : option string) (metadata : option raw_metadata) (w : world) :
  let r := handle_store_memory encode clk content metadata w in
  exists added,
    collection (snd r) = (collection w ++ added)%list
    /\ List.length added <= 1
    /\ (fst r = "Error: Content is required"
        \/ fst r = "Duplicate content detected, skipping storage" ->
        added = [])
    /\ Forall (fun m => mem_id m = str_int (millis clk)
                        /\ Some (mem_document m) = content
                        /\ mem_embedding m = encode (mem_document m)) added.
Proof.
  intros r. unfold r.
  destruct content as [[|a s]|];
    try solve [exists []; cbn; rewrite app_nil_r; repeat split; auto].
  rewrite handle_store_memory_eq.
  destruct (filter _ (collection w)).
  - destruct (existsb _ (collection w)).
    + exists []. cbn. rewrite app_nil_r. repeat split; auto.
    + eexists [_]. cbn. repeat split; auto.
      intros [H|H]; discriminate.
  - exists []. cbn. rewrite app_nil_r. repeat split; auto.
Qed.

(* ================================================================== *)
(** * Retrieve and SearchByTag read, and never write                   *)
(* ================================================================== *)

Lemma retrieve_and_search_read_only_aux
    (encode : string -> list float)
    (nearest : list memory -> list float -> Z -> string + list (memory * float))
    (format_2f : float -> string)
    (query : option string) (n_results : option Z) (w : world) :
  exists made,
    calls (snd (handle_retrieve_memory encode nearest format_2f query n_results w))
    = (calls w ++ made)%list
    /\ Forall reads_only made.
Proof.
  unfold handle_retrieve_memory, model_encode, collection_query,
    bind, log, read_collection, ret.
  destruct query as [[|a q]|];
    try (exists []; cbn; rewrite app_nil_r; split; [reflexivity|constructor]).
  exists [CallEncode (String a q);
          CallQuery (match n_results with Some n => n | None => 5%Z end)].
  cbn. destruct (nearest _ _ _) as [e|[|x xs]]; cbn;
    rewrite <- app_assoc; (split; [reflexivity|repeat constructor]).
Qed.

(** Whatever their arguments, [handle_retrieve_memory] and
    [handle_search_by_tag] leave the collection as it is, and the calls
    they make are reads: for retrieve whether the engine's [query] answers
    or raises, for search on an engine whose [get()] answers. *)
Theorem retrieve_and_search_read_only
    (encode : string -> list float)
    (nearest : list memory -> list float -> Z -> string + list (memory * float))
    (format_2f : float -> string)
    (query : option string) (n_results : option Z)
    (tags : option (list string)) (w : world) :
  let r := snd (handle_retrieve_memory encode nearest format_2f query n_results w) in
  let s := snd (handle_search_by_tag tags w) in
  collection r = collection w
  /\ collection s = collection w
  /\ (exists made, calls r = (calls w ++ made)%list /\ Forall reads_only made)
  /\ (exists made, calls s = (calls w ++ made)%list /\ Forall reads_only made).
Proof.
  intros r s. split; [apply retrieve_keeps_collection|].
  split; [apply search_keeps_collection|]. split.
  - apply retrieve_and_search_read_only_aux.
  - unfold s. destruct tags as [[|t ts]|];
      try (exists []; cbn; rewrite app_nil_r; split; [reflexivity|constructor]).
    rewrite handle_search_by_tag_eq. exists [CallGetAll].
    split; [reflexivity | repeat constructor].
Qed.

(* ================================================================== *)
(** * Tags: joined by Store, split by SearchByTag                      *)
(* ================================================================== *)

Section Splitting.

Lemma split_not_nil (s : string) : split "," s <> [].
Proof.
  destruct s as [|c s]; cbn; [discriminate|].
  destruct (Ascii.eqb c ","); [discriminate|].
  destruct (split "," s); discriminate.
Qed.

Lemma split_append (x y : string) :
  split "," (x ++ String "," y) = (split "," x ++ split "," y)%list.
Proof.
  induction x as [|c x IH]; [reflexivity|].
  cbn [append split]. rewrite IH.
  destruct (Ascii.eqb c ","); [reflexivity|].
  pose proof (split_not_nil x) as Hx.
  destruct (split "," x); [contradiction | reflexivity].
Qed.

Lemma split_comma_free (t : string) : comma_free t -> split "," t = [t].
Proof.
  unfold comma_free. induction t as [|c t IH]; cbn; [reflexivity|].
  intros H. destruct (Ascii.eqb_spec c ",") as [->|Hne]; [tauto|].
  rewrite IH; [reflexivity | tauto].
Qed.

End Splitting.

Lemma split_joined_pieces (ts : list string) :
  ts <> [] ->
  split "," (String.concat "," ts) = flat_map (split ",") ts.
Proof.
  intros Hne. induction ts as [|t ts IH]; [contradiction|].
  destruct ts as [|t' ts]; [cbn; now rewrite app_nil_r|].
  change (String.concat "," (t :: t' :: ts))
    with (t ++ String "," (String.concat "," (t' :: ts))).
  rewrite split_append, IH by discriminate. reflexivity.
Qed.

(** Splitting the joined tags gives the pieces of each tag in turn; it
    gives back the tags themselves when none of them holds a comma.  (An
    empty tag list is joined to the empty string, which splits into one
    empty piece.) *)
Theorem split_of_joined_tags (ts : list string) :
  ts <> [] ->
  split "," (String.concat "," ts) = flat_map (split ",") ts
  /\ (Forall comma_free ts -> split "," (String.concat "," ts) = ts)
  /\ split "," (String.concat "," []) = [""].
Proof.
  intros Hne. pose proof (split_joined_pieces ts Hne) as Hflat.
  split; [exact Hflat|]. split; [|reflexivity].
  intros Hfree. rewrite Hflat. clear Hne Hflat.
  induction Hfree as [|t ts Ht _ IH]; [reflexivity|].
  cbn. rewrite IH, (split_comma_free t Ht). reflexivity.
Qed.

Lemma split_of_joined_tags_witness :
  split "," (String.concat "," ["weather"; "sky"; "blue"]) = ["weather"; "sky"; "blue"]
  /\ split "," (String.concat "," ["a,b"; "c"]) = ["a"; "b"; "c"].
Proof.
  split.
  - apply (split_of_joined_tags ["weather"; "sky"; "blue"]); [discriminate|].
    repeat constructor; unfold comma_free; cbn; intuition discriminate.
  - now destruct (split_of_joined_tags ["a,b"; "c"]) as [H _]; [discriminate|].
Defined.

(** A record that Store wrote with a tag list is found by SearchByTag
    under each of its tags that holds no comma. *)
Theorem stored_record_found_by_tag
    (encode : string -> list float) (clk : clock)
    (content : option string) (metadata : option raw_metadata)
    (w : world) (m : memory) (ts : list string) (t : string)
    (others : list string) :
  let stored := snd (handle_store_memory encode clk content metadata w) in
  written m w stored ->
  supplied_tags metadata = Some ts ->
  In t ts ->
  comma_free t ->
  let hits := filter (tag_match (t :: others)) (collection stored) in
  In m hits
  /\ fst (handle_search_by_tag (Some (t :: others)) stored) =
     "Found the following memories:" ++ nl ++ nl ++
     String.concat nl (format_matches 0 hits).
Proof.
  intros stored Hw Hts Hin Hfree hits.
  assert (Hm : In m hits).
  { apply filter_In. split; [apply Hw|].
    apply tag_match_spec. exists (String.concat "," ts), t.
    destruct (written_by_store _ _ _ _ _ _ Hw) as (a & s & _ & ->).
    cbn [mem_metadata].
    pose proof (stored_metadata_lookup (stamp clk) (String a s) metadata)
      as (Htags & _).
    rewrite Hts in Htags. split; [exact Htags|]. split; [now left|].
    assert (Hne : ts <> []) by (intros ->; contradiction).
    rewrite (split_joined_pieces ts Hne).
    apply in_flat_map. exists t. split; [exact Hin|].
    rewrite (split_comma_free t Hfree). now left. }
  split; [exact Hm|].
  rewrite handle_search_by_tag_eq. fold stored. fold hits.
  destruct hits as [|x xs]; [contradiction|].
  destruct (collection stored) eqn:Hc; [|reflexivity].
  destruct Hw as [Hw _]. rewrite Hc in Hw. contradiction.
Qed.

Lemma stored_record_found_by_tag_witness :
  let request := Some (RawMetadata (Some ["weather"; "sky"]) None []) in
  let stored := snd (handle_store_memory encode0 (Clock "1.5" 1500)
                       (Some "The sky is blue") request pets) in
  In (Memory "1500" "The sky is blue"
        (stored_metadata "1.5" "The sky is blue" request) [])
     (filter (tag_match ["sky"; "dog"]) (collection stored)).
Proof.
  intros request stored.
  apply (stored_record_found_by_tag encode0 (Clock "1.5" 1500)
           (Some "The sky is blue") request pets _ ["weather"; "sky"] "sky" ["dog"]).
  - split; [vm_compute; right; right; right; left; reflexivity|].
    cbn. intros [H|[H|[H|[]]]]; discriminate.
  - reflexivity.
  - cbn. tauto.
  - unfold comma_free. cbn. intuition discriminate.
Defined.

(* ================================================================== *)
(** * The fingerprint does not separate content from metadata          *)
(* ================================================================== *)

(** The hashed string is the content directly followed by the rendered
    entries, so a content that ends like a rendered [tags_str] entry,
    stored without tags, has the fingerprint of the shorter content stored
    with those tags, at the same timestamp. *)
Theorem fingerprint_runs_content_into_metadata
    (content now : string) (ts : list string) (type_given : option string) :
  let longer := content ++ "tags_str:" ++ String.concat "," ts ++ "," in
  longer <> content
  /\ hash_content longer
       (process_metadata now (Some (RawMetadata None type_given [("k", "v")])))
     = hash_content content
         (process_metadata now (Some (RawMetadata (Some ts) type_given [])))
  /\ _generate_hash longer
       (process_metadata now (Some (RawMetadata None type_given [("k", "v")])))
     = _generate_hash content
         (process_metadata now (Some (RawMetadata (Some ts) type_given []))).
Proof.
  intros longer.
  assert (Hpre : hash_content longer
       (process_metadata now (Some (RawMetadata None type_given [("k", "v")])))
     = hash_content content
         (process_metadata now (Some (RawMetadata (Some ts) type_given [])))).
  { rewrite !store_hash_content. unfold longer, rendered_prefix, rendered_suffix.
    cbn [supplied_tags supplied_type tags type_].
    rewrite ?append_assoc. cbn. rewrite ?append_assoc. reflexivity. }
  split; [|split; [exact Hpre|]].
  - unfold longer. intros Heq. apply (f_equal String.length) in Heq.
    rewrite !length_append in Heq. cbn in Heq. lia.
  - unfold _generate_hash. now rewrite Hpre.
Qed.

(* ================================================================== *)
(** * The dispatch by name                                             *)
(* ================================================================== *)

Section DispatchFacts.
Variable encode : string -> list float.
Variable nearest : list memory -> list float -> Z -> string + list (memory * float).
Variable format_2f : float -> string.
Variable where_contains : list memory -> string -> string + list memory.

(** A name that [handle_list_tools] does not list is answered with the
    unknown-tool error, whatever the arguments, and nothing is called. *)
Theorem unknown_tool_rejected (clk : clock) (name : string)
    (args : option arguments) (w : world) :
  ~ In name (map tool_name handle_list_tools) ->
  call_tool encode nearest format_2f where_contains clk name args w
  = ("Error: Unknown tool: " ++ name, w).
Proof.
  cbn [map handle_list_tools tool_name In]. intros H.
  unfold call_tool.
  repeat match goal with
  | |- context [String.eqb name ?k] =>
      destruct (String.eqb_spec name k) as [->|_]; [exfalso; tauto|]
  end.
  reflexivity.
Qed.

(** No handler answers with the unknown-tool error. *)
Lemma handlers_know_their_tool (clk : clock) (a : arguments) (w : world)
    (name : string) :
  let unknown := "Error: Unknown tool: " ++ name in
  fst (handle_store_memory encode clk (arg_content a) (arg_metadata a) w) <> unknown
  /\ fst (handle_retrieve_memory encode nearest format_2f
            (arg_query a) (arg_n_results a) w) <> unknown
  /\ fst (handle_search_by_tag (arg_tags a) w) <> unknown
  /\ fst (handle_delete_memory (arg_content_hash a) w) <> unknown
  /\ fst (handle_delete_by_tag where_contains (arg_tag a) w) <> unknown
  /\ fst (handle_cleanup_duplicates w) <> unknown.
Proof.
  intros unknown. subst unknown. repeat apply conj.
  - destruct (arg_content a) as [[|c s]|]; try (cbn; discriminate).
    rewrite handle_store_memory_eq.
    destruct (filter _ (collection w)); cbn; discriminate.
  - unfold handle_retrieve_memory, model_encode, collection_query,
      bind, log, read_collection, ret.
    destruct (arg_query a) as [[|c s]|]; try (cbn; discriminate).
    cbn. destruct (nearest _ _ _) as [e|[|r rs]]; cbn; discriminate.
  - destruct (arg_tags a) as [[|t ts]|]; try (cbn; discriminate).
    rewrite handle_search_by_tag_eq.
    destruct (collection w); [cbn; discriminate|].
    destruct (filter _ (_ :: _)); cbn; discriminate.
  - destruct (arg_content_hash a) as [[|c s]|]; cbn; discriminate.
  - destruct (arg_tag a) as [[|c s]|]; try (cbn; discriminate).
    rewrite handle_delete_by_tag_eq.
    destruct (where_contains _ _) as [e|[|r rs]]; cbn; discriminate.
  - rewrite handle_cleanup_duplicates_eq. cbn zeta.
    destruct (map mem_id (colliders [] (collection w))); cbn; discriminate.
Qed.

(** Every tool that [handle_list_tools] lists is dispatched to a handler:
    whatever the arguments, it is not answered with the unknown-tool
    error.  And each argument its schema requires is checked: when one is
    missing or empty, or when no arguments are given at all, the call is
    answered with an error and neither the collection nor the embedding
    model is touched. *)
Theorem required_arguments_enforced (clk : clock) (t : tool)
    (args : option arguments) (w : world) :
  In t handle_list_tools ->
  let run := call_tool encode nearest format_2f where_contains clk (tool_name t) args w in
  fst run <> "Error: Unknown tool: " ++ tool_name t
  /\ forall key : string,
       In key (tool_required t) ->
       match args with Some a => usable key a = false | None => True end ->
       exists text, run = (text, w) /\ is_error text = true.
Proof.
  intros Ht run. subst run. split.
  - unfold call_tool.
    pose proof (handlers_know_their_tool clk
                  match args with Some a => a | None => no_arguments end
                  w (tool_name t)) as (H1 & H2 & H3 & H4 & H5 & H6).
    cbn in Ht. destruct Ht as [<-|[<-|[<-|[<-|[<-|[<-|[]]]]]]];
      cbn [tool_name String.eqb Ascii.eqb Bool.eqb] in *; assumption.
  - intros key Hkey Hmissing.
    assert (Ha : exists a, match args with Some a' => a' | None => no_arguments end = a
                           /\ usable key a = false).
    { destruct args as [a|]; [now exists a|]. exists no_arguments.
      split; [reflexivity|].
      cbn in Ht. destruct Ht as [<-|[<-|[<-|[<-|[<-|[<-|[]]]]]]];
        cbn in Hkey; try contradiction; destruct Hkey as [<-|[]]; reflexivity. }
    destruct Ha as (a & Ha & Hp).
    unfold call_tool. rewrite Ha. clear Ha Hmissing args.
    cbn in Ht. destruct Ht as [<-|[<-|[<-|[<-|[<-|[<-|[]]]]]]];
      cbn in Hkey; try contradiction; destruct Hkey as [<-|[]];
      cbn in Hp; cbn [tool_name String.eqb Ascii.eqb Bool.eqb].
    + destruct (arg_content a) as [[|? ?]|]; try discriminate;
        (eexists; split; reflexivity).
    + destruct (arg_query a) as [[|? ?]|]; try discriminate;
        (eexists; split; reflexivity).
    + destruct (arg_tags a) as [[|? ?]|]; try discriminate;
        (eexists; split; reflexivity).
    + destruct (arg_content_hash a) as [[|? ?]|]; try discriminate;
        (eexists; split; reflexivity).
    + destruct (arg_tag a) as [[|? ?]|]; try discriminate;
        (eexists; split; reflexivity).
Qed.

End DispatchFacts.

Lemma unknown_tool_rejected_witness :
  call_tool encode0 nearest0 format0 where_contains0 (Clock "1.5" 1500) "update_memory"
    (Some no_arguments) pets
  = ("Error: Unknown tool: update_memory", pets).
Proof.
  apply (unknown_tool_rejected encode0 nearest0 format0 where_contains0).
  cbn. intuition discriminate.
Defined.

Lemma required_arguments_enforced_witness :
  fst (call_tool encode0 nearest0 format0 where_contains0 (Clock "1.5" 1500)
         "cleanup_duplicates" None pets)
    <> "Error: Unknown tool: cleanup_duplicates"
  /\ exists text,
       call_tool encode0 nearest0 format0 where_contains0 (Clock "1.5" 1500)
         "retrieve_memory"
         (Some (Args None None (Some "") (Some 3%Z) None None None)) pets
       = (text, pets)
       /\ is_error text = true.
Proof.
  split.
  - apply (required_arguments_enforced encode0 nearest0 format0 where_contains0
             (Clock "1.5" 1500)
             (Tool "cleanup_duplicates" "Find and remove duplicate entries" [] [])
             None pets).
    cbn. tauto.
  - apply (required_arguments_enforced encode0 nearest0 format0 where_contains0
             (Clock "1.5" 1500)
             (Tool "retrieve_memory" "Find relevant memories based on query"
                [("query", "string"); ("n_results", "number")] ["query"])
             (Some (Args None None (Some "") (Some 3%Z) None None None)) pets)
      with (key := "query").
    + cbn. tauto.
    + cbn. tauto.
    + reflexivity.
Defined.

(* ================================================================== *)
(** * Records stored without tags                                      *)
(* ================================================================== *)



(* ================================================================== *)
(** * Every operation reads, then writes at most once                  *)
(* ================================================================== *)

Section CallSequence.
Variable encode : string -> list float.
Variable nearest : list memory -> list float -> Z -> string + list (memory * float).
Variable format_2f : float -> string.
Variable where_contains : list memory -> string -> string + list memory.

(** The calls a tool call makes on the engine and on the embedding model
    are reads followed by at most one [add] or [delete]. *)
Theorem reads_then_one_write (c : tool_call) (w : world) :
  exists reads writes,
    calls (snd (handle_call_tool encode nearest format_2f where_contains c w))
    = (calls w ++ reads ++ writes)%list
    /\ Forall reads_only reads
    /\ List.length writes <= 1.
Proof.
  assert (Hnone : exists reads writes : list call,
            calls w = (calls w ++ reads ++ writes)%list
            /\ Forall reads_only reads /\ List.length writes <= 1).
  { exists [], []. rewrite app_nil_r. repeat split; auto. }
  destruct c as [clk content metadata|query n|ts|h|t|]; cbn [handle_call_tool].
  - destruct content as [[|a s]|]; try exact Hnone.
    rewrite handle_store_memory_eq.
    destruct (filter _ (collection w)); cbn [snd calls].
    + eexists [_; _], [_]. split; [reflexivity|].
      split; [repeat constructor | auto].
    + eexists [_], []. split; [reflexivity|].
      split; [repeat constructor | auto].
  - destruct (retrieve_and_search_read_only_aux encode nearest format_2f query n w)
      as (made & -> & Hr).
    exists made, []. rewrite app_nil_r. auto.
  - destruct ts as [[|t ts]|]; try exact Hnone.
    rewrite handle_search_by_tag_eq. cbn [snd calls].
    eexists [_], []. split; [reflexivity|]. split; [repeat constructor | auto].
  - destruct h as [[|a s]|]; try exact Hnone.
    cbn. eexists [], [_]. split; [reflexivity|]. split; [constructor | auto].
  - destruct t as [[|a s]|]; try exact Hnone.
    rewrite handle_delete_by_tag_eq.
    destruct (where_contains _ _) as [e|[|r rs]]; cbn [snd calls].
    + eexists [_], []. split; [reflexivity|]. split; [repeat constructor | auto].
    + eexists [_], []. split; [reflexivity|]. split; [repeat constructor | auto].
    + eexists [_], [_]. split; [reflexivity|]. split; [repeat constructor | auto].
  - rewrite handle_cleanup_duplicates_eq. cbn zeta.
    destruct (map mem_id (colliders [] (collection w))); cbn [snd calls].
    + eexists [_], []. split; [reflexivity|]. split; [repeat constructor | auto].
    + eexists [_], [_]. split; [reflexivity|]. split; [repeat constructor | auto].
Qed.

End CallSequence.
